(** * OpenMemory: temporal fact queries, fact ownership checks, the pgvector
      store, the unified [store] router and [Memory.list]

    A shallow embedding of
    - [temporal_graph/query.ts] (the temporal query functions),
    - [core/memory.ts] ([Memory.updateFact], [invalidateFact], [deleteFact],
      [store], [list]),
    - [core/vector/pgvector.ts] ([PgVectorStore.searchSimilar]).

    Conventions.  An instant ([Date]) is its millisecond timestamp, a [Z].
    A JavaScript [number] holding a confidence or a similarity is a rational
    ([Q]); only comparisons, [1 - x] and copying are performed on them.  An
    optional parameter [x?: T] is an [option T]; a test [if (x)] on an optional
    string is [truthy], which is false for [undefined] and for the empty
    string.  A table is the list of its rows in storage order. *)

From Stdlib Require Import ZArith QArith List String Ascii Bool Lia.
From Stdlib Require Import Permutation Sorted.
From stdpp Require Import base option list strings gmap.

Close Scope Q_scope.
Open Scope string_scope.
Open Scope list_scope.
Open Scope Z_scope.

(** ** JavaScript idioms *)

(** [if (s)] for [s?: string]. *)
Definition truthy (s : option string) : bool :=
  match s with
  | Some v => negb (String.eqb v "")
  | None => false
  end.

(** The string that [if (s)] lets through. *)
Definition provided (s : option string) : option string :=
  if truthy s then s else None.

(** [a || b] on optional strings: [a] when it is truthy, [b] otherwise. *)
Definition or_else (a b : option string) : option string :=
  if truthy a then a else b.

(** ** The [temporal_facts] table *)

Record fact_row := mk_row {
  row_id : string;
  row_user_id : option string;      (* NULL for a fact stored without user *)
  row_subject : string;
  row_predicate : string;
  row_object : string;
  row_valid_from : Z;
  row_valid_to : option Z;          (* NULL while the fact is open *)
  row_confidence : Q;
  row_last_updated : Z;
  row_metadata : option string      (* JSON text *)
}.

(** The [TemporalFact] objects handed to callers. The metadata stays the JSON
    text it is parsed from. *)
Record TemporalFact := mk_fact {
  id : string;
  subject : string;
  predicate : string;
  object : string;
  valid_from : Z;
  valid_to : option Z;
  confidence : Q;
  last_updated : Z;
  user_id : option string;
  metadata : option string
}.

(** The object literal every query maps its rows with:
    [valid_to: row.valid_to ? new Date(Number(row.valid_to)) : null] and
    [metadata: row.metadata ? JSON.parse(row.metadata) : undefined]. *)
Definition row_to_fact (row : fact_row) : TemporalFact :=
  {| id := row_id row;
     subject := row_subject row;
     predicate := row_predicate row;
     object := row_object row;
     valid_from := row_valid_from row;
     valid_to := match row_valid_to row with
                 | Some v => if v =? 0 then None else Some v
                 | None => None
                 end;
     confidence := row_confidence row;
     last_updated := row_last_updated row;
     user_id := row_user_id row;
     metadata := if truthy (row_metadata row) then row_metadata row else None |}.

(** ** SQL conditions *)

Definition condition := fact_row -> bool.

(** ['(valid_from <= ? AND (valid_to IS NULL OR valid_to >= ?))'] *)
Definition valid_window (p1 p2 : Z) : condition := fun r =>
  (row_valid_from r <=? p1) &&
  match row_valid_to r with
  | None => true
  | Some vt => vt >=? p2
  end.

(** ['((valid_from <= ? AND (valid_to IS NULL OR valid_to >= ?)) OR
      (valid_from >= ? AND valid_from <= ?))'] *)
Definition range_window (p1 p2 p3 p4 : Z) : condition := fun r =>
  valid_window p1 p2 r || ((row_valid_from r >=? p3) && (row_valid_from r <=? p4)).

(** ['valid_from >= ?'] and ['valid_from <= ?'] *)
Definition valid_from_ge (p : Z) : condition := fun r => row_valid_from r >=? p.
Definition valid_from_le (p : Z) : condition := fun r => row_valid_from r <=? p.

(** ['valid_to IS NULL'] *)
Definition valid_to_is_null : condition := fun r =>
  match row_valid_to r with None => true | Some _ => false end.

(** ['user_id = ?']: a NULL column is equal to nothing. *)
Definition user_id_eq (u : string) : condition := fun r =>
  match row_user_id r with
  | Some v => String.eqb v u
  | None => false
  end.

Definition subject_eq (s : string) : condition := fun r => String.eqb (row_subject r) s.
Definition predicate_eq (s : string) : condition := fun r => String.eqb (row_predicate r) s.
Definition object_eq (s : string) : condition := fun r => String.eqb (row_object r) s.

(** ['confidence >= ?'] *)
Definition confidence_ge (c : Q) : condition := fun r => Qle_bool c (row_confidence r).

(** [if (x) { conditions.push(c(x)) }] for an optional string [x]. *)
Definition push_if (x : option string) (c : string -> condition)
    (conditions : list condition) : list condition :=
  match provided x with
  | Some v => conditions ++ [c v]
  | None => conditions
  end.

(** [if (min_confidence > 0) { conditions.push('confidence >= ?') }] *)
Definition push_confidence (min_confidence : Q) (conditions : list condition)
    : list condition :=
  if Qle_bool min_confidence 0 then conditions
  else conditions ++ [confidence_ge min_confidence].

(** [conditions.join(' AND ')] *)
Definition join_and (conditions : list condition) : condition := fun r =>
  forallb (fun c => c r) conditions.

(** ** ORDER BY *)

Definition ordering := fact_row -> fact_row -> comparison.

Definition confidence_desc : ordering := fun a b =>
  Qcompare (row_confidence b) (row_confidence a).
Definition valid_from_desc : ordering := fun a b =>
  Z.compare (row_valid_from b) (row_valid_from a).
Definition predicate_asc : ordering := fun a b =>
  String.compare (row_predicate a) (row_predicate b).

(** [ORDER BY k1, k2]: the second key decides among equals of the first. *)
Definition then_by (k1 k2 : ordering) : ordering := fun a b =>
  match k1 a b with
  | Eq => k2 a b
  | c => c
  end.

Definition not_after (k : ordering) (a b : fact_row) : bool :=
  match k a b with
  | Gt => false
  | _ => true
  end.

(** Rows with equal keys keep their storage order (SQL leaves it open). *)
Fixpoint insert_by (k : ordering) (x : fact_row) (l : list fact_row) : list fact_row :=
  match l with
  | [] => [x]
  | y :: l' => if not_after k x y then x :: y :: l' else y :: insert_by k x l'
  end.

Definition order_by (k : ordering) (l : list fact_row) : list fact_row :=
  fold_right (insert_by k) [] l.

(** ** Running a SELECT on [temporal_facts] *)

(** [all_async]: WHERE, ORDER BY, then the optional LIMIT. *)
Definition all_async (where_ : list condition) (order : option ordering)
    (limit : option nat) (db : list fact_row) : list fact_row :=
  let matching := List.filter (join_and where_) db in
  let sorted := match order with
                | Some k => order_by k matching
                | None => matching
                end in
  match limit with
  | Some n => firstn n sorted
  | None => sorted
  end.

(** [get_async]: the first row of the result, or [undefined]. *)
Definition get_async (where_ : list condition) (order : option ordering)
    (limit : option nat) (db : list fact_row) : option fact_row :=
  List.hd_error (all_async where_ order limit db).

(** ** temporal_graph/query.ts *)

(** [timestamp = at.getTime()] with [at: Date = new Date()] ([now]), and
    [at ? at.getTime() : Date.now()]. *)
Definition timestamp_of (now : Z) (at_ : option Z) : Z :=
  match at_ with
  | Some t => t
  | None => now
  end.

(** [min_confidence: number = 0.1] *)
Definition min_confidence_of (min_confidence : option Q) : Q :=
  match min_confidence with
  | Some c => c
  | None => (1 # 10)%Q
  end.

Definition query_facts_at_time (now : Z) (subject predicate object : option string)
    (at_ : option Z) (min_confidence : option Q) (user_id : option string)
    (db : list fact_row) : list TemporalFact :=
  let timestamp := timestamp_of now at_ in
  let conditions := [valid_window timestamp timestamp] in
  let conditions := push_if user_id user_id_eq conditions in
  let conditions := push_if subject subject_eq conditions in
  let conditions := push_if predicate predicate_eq conditions in
  let conditions := push_if object object_eq conditions in
  let conditions := push_confidence (min_confidence_of min_confidence) conditions in
  let rows := all_async conditions (Some (then_by confidence_desc valid_from_desc)) None db in
  map row_to_fact rows.

Definition get_current_fact (subject predicate : string) (user_id : option string)
    (db : list fact_row) : option TemporalFact :=
  let conditions := [subject_eq subject; predicate_eq predicate; valid_to_is_null] in
  let conditions := push_if user_id user_id_eq conditions in
  match get_async conditions (Some valid_from_desc) (Some 1%nat) db with
  | None => None
  | Some row => Some (row_to_fact row)
  end.

Definition query_facts_in_range (subject predicate : option string)
    (from to : option Z) (min_confidence : option Q) (user_id : option string)
    (db : list fact_row) : list TemporalFact :=
  let conditions :=
    match from, to with
    | Some from_ts, Some to_ts => [range_window to_ts from_ts from_ts to_ts]
    | Some from_ts, None => [valid_from_ge from_ts]
    | None, Some to_ts => [valid_from_le to_ts]
    | None, None => []
    end in
  let conditions := push_if user_id user_id_eq conditions in
  let conditions := push_if subject subject_eq conditions in
  let conditions := push_if predicate predicate_eq conditions in
  let conditions := push_confidence (min_confidence_of min_confidence) conditions in
  let rows := all_async conditions (Some valid_from_desc) None db in
  map row_to_fact rows.

Definition find_conflicting_facts (now : Z) (subject predicate : string)
    (at_ : option Z) (user_id : option string) (db : list fact_row)
    : list TemporalFact :=
  let timestamp := timestamp_of now at_ in
  let conditions := [subject_eq subject; predicate_eq predicate;
                     valid_window timestamp timestamp] in
  let conditions := push_if user_id user_id_eq conditions in
  let rows := all_async conditions (Some confidence_desc) None db in
  map row_to_fact rows.

Definition get_facts_by_subject (now : Z) (subject : string) (at_ : option Z)
    (include_historical : bool) (user_id : option string) (db : list fact_row)
    : list TemporalFact :=
  let rows :=
    if include_historical then
      let conditions := [subject_eq subject] in
      let conditions := push_if user_id user_id_eq conditions in
      all_async conditions (Some (then_by predicate_asc valid_from_desc)) None db
    else
      let timestamp := timestamp_of now at_ in
      let conditions := [subject_eq subject; valid_window timestamp timestamp] in
      let conditions := push_if user_id user_id_eq conditions in
      all_async conditions (Some (then_by predicate_asc confidence_desc)) None db in
  map row_to_fact rows.

(** *** LIKE *)

(** The SQL LIKE operator: [%] in the pattern stands for any run of
    characters, [_] for any one character, every other character for itself
    under the comparison [ceq] of the backend ([Ascii.eqb] where LIKE is
    case-sensitive; a backend whose LIKE folds case supplies its own).  The
    statements carry no ESCAPE clause. *)
Fixpoint like_match (ceq : ascii -> ascii -> bool) (pat s : string) {struct pat} : bool :=
  match pat with
  | EmptyString => match s with EmptyString => true | String _ _ => false end
  | String c pat' =>
      if Ascii.eqb c "%" then
        (fix skip (s : string) : bool :=
           like_match ceq pat' s ||
           match s with
           | EmptyString => false
           | String _ s' => skip s'
           end) s
      else if Ascii.eqb c "_" then
        match s with
        | EmptyString => false
        | String _ s' => like_match ceq pat' s'
        end
      else
        match s with
        | EmptyString => false
        | String d s' => ceq c d && like_match ceq pat' s'
        end
  end.

Inductive field := Subject | Predicate | Object.

Definition column (f : field) (r : fact_row) : string :=
  match f with
  | Subject => row_subject r
  | Predicate => row_predicate r
  | Object => row_object r
  end.

(** ['${field} LIKE ?'] *)
Definition field_like (ceq : ascii -> ascii -> bool) (f : field) (p : string)
    : condition := fun r => like_match ceq p (column f r).

(** [field: 'subject' | 'predicate' | 'object' = 'subject'] *)
Definition field_of (f : option field) : field :=
  match f with
  | Some x => x
  | None => Subject
  end.

Definition search_facts (ceq : ascii -> ascii -> bool) (now : Z) (pattern : string)
    (field : option field) (at_ : option Z) (user_id : option string)
    (db : list fact_row) : list TemporalFact :=
  let timestamp := timestamp_of now at_ in
  let search_pattern := "%" +:+ pattern +:+ "%" in
  let conditions := [field_like ceq (field_of field) search_pattern;
                     valid_window timestamp timestamp] in
  let conditions := push_if user_id user_id_eq conditions in
  let rows := all_async conditions (Some (then_by confidence_desc valid_from_desc))
                (Some 100%nat) db in
  map row_to_fact rows.

(** ** core/memory.ts: the [Memory] class *)

Record Memory := { default_user : option string }.

(** [constructor(user_id?: string) { this.default_user = user_id || null }] *)
Definition new_Memory (user_id : option string) : Memory :=
  {| default_user := or_else user_id None |}.

(** The metadata objects ([Record<string, any>]) with the values that occur. *)
Inductive jvalue :=
| JString (s : string)
| JNumber (q : Q)
| JBool (b : bool)
| JNull.

Abbreviation metadata_map := (gmap string jvalue).

(** *** Fact mutations *)

(** An asynchronous method that reads and writes a store of type [S] and may
    throw [new Error(message)]: the store is threaded, an error is its
    message. *)
Definition action (S A : Type) : Type := S -> (string + A) * S.

Definition ret {S A} (x : A) : action S A := fun st => (inr x, st).
Definition throw {S A} (message : string) : action S A := fun st => (inl message, st).
Definition bind {S A B} (m : action S A) (k : A -> action S B) : action S B := fun st =>
  match m st with
  | (inl message, st') => (inl message, st')
  | (inr x, st') => k x st'
  end.

Notation "x <- m ;; k" := (bind m (fun x => k))
  (at level 100, m at next level, right associativity).

(** ['SELECT user_id FROM temporal_facts WHERE id = ?'] *)
Definition id_eq (i : string) : condition := fun r => String.eqb (row_id r) i.

Definition select_owner (i : string) : action (list fact_row) (option fact_row) := fun db =>
  (inr (get_async [id_eq i] None None db), db).

(** [fact.user_id !== uid] *)
Definition owner_differs (fact : fact_row) (uid : string) : bool :=
  match row_user_id fact with
  | Some v => negb (String.eqb v uid)
  | None => true
  end.

(** The block "Validate ownership if user_id is specified", written out in
    each of [updateFact], [invalidateFact] and [deleteFact]. *)
Definition validate_ownership (uid : option string) (i : string)
    : action (list fact_row) unit :=
  match provided uid with
  | Some u =>
      fact <- select_owner i ;;
      match fact with
      | None => throw ("Fact " +:+ i +:+ " not found")
      | Some f =>
          if owner_differs f u
          then throw ("Fact " +:+ i +:+ " not found for user " +:+ u)
          else ret tt
      end
  | None => ret tt
  end.

Record UpdateOptions := {
  uo_confidence : option Q;
  uo_metadata : option metadata_map;
  uo_user_id : option string
}.

Section FactMutations.

(** The writes of [temporal_graph/store.ts], which the methods end with. *)
Variable update_fact :
  string -> option Q -> option metadata_map -> list fact_row -> list fact_row.
Variable invalidate_fact : string -> option Z -> list fact_row -> list fact_row.
Variable delete_fact : string -> list fact_row -> list fact_row.

Definition run (f : list fact_row -> list fact_row) : action (list fact_row) unit :=
  fun db => (inr tt, f db).

Definition updateFact (this : Memory) (i : string) (opts : UpdateOptions)
    : action (list fact_row) unit :=
  let uid := or_else (uo_user_id opts) (default_user this) in
  _ <- validate_ownership uid i ;;
  run (update_fact i (uo_confidence opts) (uo_metadata opts)).

Definition invalidateFact (this : Memory) (i : string) (valid_to : option Z)
    (user_id : option string) : action (list fact_row) unit :=
  let uid := or_else user_id (default_user this) in
  _ <- validate_ownership uid i ;;
  run (invalidate_fact i valid_to).

Definition deleteFact (this : Memory) (i : string) (user_id : option string)
    : action (list fact_row) unit :=
  let uid := or_else user_id (default_user this) in
  _ <- validate_ownership uid i ;;
  run (delete_fact i).

End FactMutations.

(** Modelled from the spec: [invalidate_fact] and [delete_fact] of
    [temporal_graph/store.ts], which is not among the sources. "Invalidate
    sets valid_to (default now). Delete is irreversible." *)
Definition spec_invalidate_fact (now : Z) (i : string) (valid_to : option Z)
    (db : list fact_row) : list fact_row :=
  map (fun r =>
         if String.eqb (row_id r) i
         then mk_row (row_id r) (row_user_id r) (row_subject r) (row_predicate r)
                (row_object r) (row_valid_from r) (Some (timestamp_of now valid_to))
                (row_confidence r) (row_last_updated r) (row_metadata r)
         else r) db.

Definition spec_delete_fact (i : string) (db : list fact_row) : list fact_row :=
  List.filter (fun r => negb (String.eqb (row_id r) i)) db.

(** Modelled from the spec: [update_fact] of [temporal_graph/store.ts], which
    is not among the sources. "Update mutates only confidence and/or
    metadata"; [stringify] is the serialisation of the metadata column. *)
Definition spec_update_fact (stringify : metadata_map -> string) (i : string)
    (new_confidence : option Q) (new_metadata : option metadata_map)
    (db : list fact_row) : list fact_row :=
  map (fun r =>
         if String.eqb (row_id r) i
         then mk_row (row_id r) (row_user_id r) (row_subject r) (row_predicate r)
                (row_object r) (row_valid_from r) (row_valid_to r)
                (match new_confidence with Some c => c | None => row_confidence r end)
                (row_last_updated r)
                (match new_metadata with
                 | Some m => Some (stringify m)
                 | None => row_metadata r
                 end)
         else r) db.

(** *** [Memory.list] *)

Record mem_row := {
  mem_id : string;
  mem_user_id : option string;
  mem_content : string;
  mem_primary_sector : string
}.

Record ListOptions := {
  lo_user_id : option string;
  lo_limit : option nat;
  lo_offset : option nat;
  lo_sector : option string
}.

(** [LIMIT ? OFFSET ?] *)
Definition page {A} (limit offset : nat) (rows : list A) : list A :=
  firstn limit (skipn offset rows).

(** Modelled from the spec: the prepared statements [q.all_mem],
    [q.all_mem_by_user] and [q.all_mem_by_sector] of [core/db.ts], which is
    not among the sources; each returns a "page of memory rows" selected by
    its named column and cut by limit and offset.  [memories] lists the table
    in the order the statements enumerate it. *)
Definition all_mem (limit offset : nat) (memories : list mem_row) : list mem_row :=
  page limit offset memories.

Definition all_mem_by_user (uid : string) (limit offset : nat)
    (memories : list mem_row) : list mem_row :=
  page limit offset
    (List.filter (fun row => match mem_user_id row with
                             | Some u => String.eqb u uid
                             | None => false
                             end) memories).

Definition all_mem_by_sector (sector : string) (limit offset : nat)
    (memories : list mem_row) : list mem_row :=
  page limit offset
    (List.filter (fun row => String.eqb (mem_primary_sector row) sector) memories).

(** [n || d] on an optional number: [0] is falsy. *)
Definition number_or (n : option nat) (d : nat) : nat :=
  match n with
  | Some O => d
  | Some k => k
  | None => d
  end.

(** [list] in the source; an absent [opts] reads as all fields undefined. *)
Definition Memory_list (this : Memory) (opts : ListOptions)
    (memories : list mem_row) : list mem_row :=
  let limit := number_or (lo_limit opts) 10 in
  let offset := number_or (lo_offset opts) 0 in
  let uid := or_else (lo_user_id opts) (default_user this) in
  let sector := lo_sector opts in
  match provided uid with
  | Some u =>
      let all := all_mem_by_user u limit offset memories in
      match provided sector with
      | Some s => List.filter (fun row => String.eqb (mem_primary_sector row) s) all
      | None => all
      end
  | None =>
      match provided sector with
      | Some s => all_mem_by_sector s limit offset memories
      | None => all_mem limit offset memories
      end
  end.

(** *** [Memory.store] *)

Inductive store_type := contextual | factual | both.

Definition type_name (t : store_type) : string :=
  match t with
  | contextual => "contextual"
  | factual => "factual"
  | both => "both"
  end.

(** An element of [StoreOptions.facts]. *)
Record fact_input := {
  fi_subject : string;
  fi_predicate : string;
  fi_object : string;
  fi_confidence : option Q;
  fi_valid_from : option Z
}.

Record StoreOptions := {
  so_type : option store_type;
  so_facts : option (list fact_input);
  so_tags : option (list string);
  so_metadata : option metadata_map;
  so_user_id : option string
}.

(** An element of [factsToInsert], the argument of [batch_insert_facts]. *)
Record fact_insert := {
  ins_subject : string;
  ins_predicate : string;
  ins_object : string;
  ins_valid_from : Z;
  ins_confidence : Q;
  ins_metadata : metadata_map;
  ins_user_id : option string
}.

Record hsg_entry := {
  hsg_id : string;
  hsg_primary_sector : string;
  hsg_sectors : list string
}.

Record temporal_entry := {
  te_id : option string;            (* [fact_ids[index]] *)
  te_subject : string;
  te_predicate : string;
  te_object : string
}.

Record StoreResult := {
  hsg : option hsg_entry;
  temporal : option (list temporal_entry)
}.

(** [{ ...opts?.metadata }] *)
Definition spread (m : option metadata_map) : metadata_map :=
  match m with
  | Some x => x
  | None => ∅
  end.

(** The [opts.facts.map(f => ({ ... }))] that builds [factsToInsert]; every
    element refers to the one object [meta]. *)
Definition facts_to_insert (now : Z) (meta : metadata_map) (uid : option string)
    (facts : list fact_input) : list fact_insert :=
  map (fun f =>
         {| ins_subject := fi_subject f;
            ins_predicate := fi_predicate f;
            ins_object := fi_object f;
            ins_valid_from := timestamp_of now (fi_valid_from f);
            ins_confidence := match fi_confidence f with
                              | Some c => c
                              | None => 1%Q
                              end;
            ins_metadata := meta;
            ins_user_id := uid |}) facts.

Section Store.

(** The HSG and the temporal graph behind [add_hsg_memory] ([memory/hsg.ts])
    and [batch_insert_facts] ([temporal_graph/store.ts]), and
    [JSON.stringify] on the tags. *)
Variable world : Type.
Variable add_hsg_memory :
  string -> string -> metadata_map -> option string -> action world hsg_entry.
Variable batch_insert_facts : list fact_insert -> action world (list string).
Variable stringify : list string -> string.

(** The block under "Store in HSG if contextual or both". *)
Definition store_hsg (content : string) (opts : StoreOptions) (uid : option string)
    (type : store_type) : action world (option hsg_entry) :=
  match type with
  | contextual | both =>
      let tags := match so_tags opts with Some t => t | None => [] end in
      let meta := spread (so_metadata opts) in
      hsg_result <- add_hsg_memory content (stringify tags) meta uid ;;
      ret (Some {| hsg_id := hsg_id hsg_result;
                   hsg_primary_sector := hsg_primary_sector hsg_result;
                   hsg_sectors := hsg_sectors hsg_result |})
  | factual => ret None
  end.

(** [if (type === 'both' && result.hsg?.id) meta.source_memory_id = result.hsg.id] *)
Definition link_meta (type : store_type) (result_hsg : option hsg_entry)
    (meta : metadata_map) : metadata_map :=
  match type, result_hsg with
  | both, Some h =>
      if truthy (Some (hsg_id h))
      then <["source_memory_id" := JString (hsg_id h)]> meta
      else meta
  | _, _ => meta
  end.

(** The block under "Store in temporal graph if factual or both". *)
Definition store_temporal (now : Z) (opts : StoreOptions) (uid : option string)
    (type : store_type) (result_hsg : option hsg_entry)
    : action world (option (list temporal_entry)) :=
  match type, so_facts opts with
  | (factual | both), Some facts =>
      let meta := link_meta type result_hsg (spread (so_metadata opts)) in
      let factsToInsert := facts_to_insert now meta uid facts in
      fact_ids <- batch_insert_facts factsToInsert ;;
      ret (Some (imap (fun index fact =>
                         {| te_id := fact_ids !! index;
                            te_subject := fi_subject fact;
                            te_predicate := fi_predicate fact;
                            te_object := fi_object fact |}) facts))
  | _, _ => ret None
  end.

Definition throw_if (b : bool) (message : string) : action world unit :=
  if b then throw message else ret tt.

(** [now] is what [new Date()] reads; an absent [opts] reads as all fields
    undefined. *)
Definition store (this : Memory) (now : Z) (content : string) (opts : StoreOptions)
    : action world StoreResult :=
  let type := match so_type opts with Some t => t | None => contextual end in
  let uid := or_else (so_user_id opts) (default_user this) in
  _ <- throw_if
         (match type with factual => true | _ => false end &&
          match so_facts opts with Some (_ :: _) => false | _ => true end)
         "Facts array is required when type is 'factual'" ;;
  _ <- throw_if
         (match type with contextual | both => true | factual => false end &&
          negb (truthy (Some content)))
         ("Content is required when type is '" +:+ type_name type +:+ "'") ;;
  result_hsg <- store_hsg content opts uid type ;;
  result_temporal <- store_temporal now opts uid type result_hsg ;;
  ret {| hsg := result_hsg; temporal := result_temporal |}.

End Store.

(** ** core/vector/pgvector.ts *)

Record hit := { hit_id : string; hit_score : Q }.

Section PgVector.

(** The [vector] type of the extension and its cosine distance [<=>]. *)
Variable vector : Type.
Variable cosine_distance : vector -> vector -> Q.

(** A row of the [vectors] table; [storeVector] writes
    [user_id || "anonymous"] into the user column. *)
Record vector_row := {
  v_id : string;
  v_sector : string;
  v_user_id : string;
  v : vector;
  v_dim : nat
}.

(** The scan that serves [order by v <=> $1::vector]: the rows of the table
    the index reaches, nearest first as far as the index knows; the WHERE
    clause and the LIMIT apply to what it yields. *)
Variable index_scan : vector -> list vector_row -> list vector_row.

(** What [searchSimilar] sends to the database: the WHERE clause and the
    LIMIT parameter. *)
Record search_statement := {
  where_sector : string;
  where_user_id : option string;
  limit_param : nat
}.

Definition search_where (st : search_statement) (row : vector_row) : bool :=
  String.eqb (v_sector row) (where_sector st) &&
  match where_user_id st with
  | Some u => String.eqb (v_user_id row) u
  | None => true
  end.

(** [select id, 1 - (v <=> $1::vector) as score from ... where ...
     order by v <=> $1::vector limit ...] *)
Definition run_search (queryVec : vector) (st : search_statement)
    (table : list vector_row) : list hit :=
  map (fun row => {| hit_id := v_id row;
                     hit_score := (1 - cosine_distance (v row) queryVec)%Q |})
    (firstn (limit_param st)
       (List.filter (search_where st) (index_scan queryVec table))).

Definition search_statement_of (sector : string) (topK : nat)
    (user_id : option string) : search_statement :=
  match provided user_id with
  | Some u => {| where_sector := sector; where_user_id := Some u; limit_param := topK |}
  | None => {| where_sector := sector; where_user_id := None; limit_param := topK |}
  end.

Definition searchSimilar (sector : string) (queryVec : vector) (topK : nat)
    (user_id : option string) (table : list vector_row) : list hit :=
  run_search queryVec (search_statement_of sector topK user_id) table.

End PgVector.

(** *** The other operations of the store *)

Arguments v_id {vector} _.
Arguments v_sector {vector} _.
Arguments v_user_id {vector} _.
Arguments v {vector} _.
Arguments v_dim {vector} _.

(** What [getVector] returns, and an element of what [getVectorsById] and
    [getVectorsBySector] return. *)
Record vector_value (numbers : Type) := {
  vv_vector : numbers;
  vv_dim : nat
}.
Arguments vv_vector {numbers} _.
Arguments vv_dim {numbers} _.

Section PgVectorStore.

(** [numbers] stands for [number[]].  [to_vector] is what the database makes
    of the text "[x1,x2,...]" under [::vector]; [of_vector] is what
    [v::text], stripped of its brackets, split at the commas and read by
    [parseFloat], gives back. *)
Variable vector : Type.
Variable numbers : Type.
Variable to_vector : numbers -> vector.
Variable of_vector : vector -> numbers.

(** [id=$1 and sector=$2] *)
Definition same_key (i sector : string) (row : vector_row vector) : bool :=
  String.eqb (v_id row) i && String.eqb (v_sector row) sector.

(** [insert into vectors(id,sector,user_id,v,dim) values(...)
     on conflict(id,sector) do update set user_id=excluded.user_id,
     v=excluded.v, dim=excluded.dim], with [user_id || "anonymous"]. *)
Definition storeVector (i sector : string) (vec : numbers) (dim : nat)
    (user_id : option string) (table : list (vector_row vector))
    : list (vector_row vector) :=
  let excluded :=
    {| v_id := i; v_sector := sector;
       v_user_id := match provided user_id with
                    | Some u => u
                    | None => "anonymous"
                    end;
       v := to_vector vec; v_dim := dim |} in
  if existsb (same_key i sector) table
  then map (fun row => if same_key i sector row then excluded else row) table
  else table ++ [excluded].

(** [delete from vectors where id=$1 and sector=$2] *)
Definition deleteVector (i sector : string) (table : list (vector_row vector))
    : list (vector_row vector) :=
  List.filter (fun row => negb (same_key i sector row)) table.

(** [delete from vectors where id=$1] *)
Definition deleteVectors (i : string) (table : list (vector_row vector))
    : list (vector_row vector) :=
  List.filter (fun row => negb (String.eqb (v_id row) i)) table.

(** [select v::text as v_text,dim from vectors where id=$1 and sector=$2];
    [if (!row) return null]. *)
Definition getVector (i sector : string) (table : list (vector_row vector))
    : option (vector_value numbers) :=
  match List.find (same_key i sector) table with
  | None => None
  | Some row => Some {| vv_vector := of_vector (v row); vv_dim := v_dim row |}
  end.

Definition getVectorsById (i : string) (table : list (vector_row vector))
    : list (string * vector_value numbers) :=
  map (fun row => (v_sector row,
                   {| vv_vector := of_vector (v row); vv_dim := v_dim row |}))
    (List.filter (fun row => String.eqb (v_id row) i) table).

Definition getVectorsBySector (sector : string) (table : list (vector_row vector))
    : list (string * vector_value numbers) :=
  map (fun row => (v_id row,
                   {| vv_vector := of_vector (v row); vv_dim := v_dim row |}))
    (List.filter (fun row => String.eqb (v_sector row) sector) table).

End PgVectorStore.

Arguments same_key {vector} _ _ _.
Arguments storeVector {vector numbers} _ _ _ _ _ _ _.
Arguments deleteVector {vector} _ _ _.
Arguments deleteVectors {vector} _ _.
Arguments getVector {vector numbers} _ _ _ _.
Arguments getVectorsById {vector numbers} _ _ _.
Arguments getVectorsBySector {vector numbers} _ _ _.

(** ** temporal_graph/query.ts: [get_related_facts] *)

(** A row of [temporal_edges]. *)
Record edge_row := {
  edge_source_id : string;
  edge_target_id : string;
  edge_relation_type : string;
  edge_weight : Q;
  edge_valid_from : Z;
  edge_valid_to : option Z;
  edge_user_id : option string
}.

Record related_fact := {
  rf_fact : TemporalFact;
  rf_relation : string;
  rf_weight : Q
}.

Definition edge_condition := edge_row -> bool.

(** ['(e.valid_from <= ? AND (e.valid_to IS NULL OR e.valid_to >= ?))'] *)
Definition edge_window (p1 p2 : Z) : edge_condition := fun e =>
  (edge_valid_from e <=? p1) &&
  match edge_valid_to e with
  | None => true
  | Some vt => vt >=? p2
  end.

(** ['e.relation_type = ?'] and ['e.user_id = ?'] *)
Definition edge_relation_eq (r : string) : edge_condition := fun e =>
  String.eqb (edge_relation_type e) r.

Definition edge_user_eq (u : string) : edge_condition := fun e =>
  match edge_user_id e with
  | Some v => String.eqb v u
  | None => false
  end.

Definition push_edge_if (x : option string) (c : string -> edge_condition)
    (conditions : list edge_condition) : list edge_condition :=
  match provided x with
  | Some v => conditions ++ [c v]
  | None => conditions
  end.

(** [ORDER BY e.weight DESC, f.confidence DESC] *)
Definition related_order (a b : edge_row * fact_row) : comparison :=
  match Qcompare (edge_weight (fst b)) (edge_weight (fst a)) with
  | Eq => Qcompare (row_confidence (snd b)) (row_confidence (snd a))
  | c => c
  end.

Definition related_not_after (a b : edge_row * fact_row) : bool :=
  match related_order a b with
  | Gt => false
  | _ => true
  end.

Fixpoint insert_sorted {A} (not_after : A -> A -> bool) (x : A) (l : list A) : list A :=
  match l with
  | [] => [x]
  | y :: l' => if not_after x y then x :: y :: l' else y :: insert_sorted not_after x l'
  end.

Definition sort_by {A} (not_after : A -> A -> bool) (l : list A) : list A :=
  fold_right (insert_sorted not_after) [] l.

(** [FROM temporal_edges e JOIN temporal_facts f ON e.target_id = f.id] *)
Definition join_edges (edges : list edge_row) (db : list fact_row)
    : list (edge_row * fact_row) :=
  flat_map (fun e =>
              map (fun f => (e, f))
                (List.filter (fun f => String.eqb (edge_target_id e) (row_id f)) db))
    edges.

Definition get_related_facts (now : Z) (fact_id : string) (relation_type : option string)
    (at_ : option Z) (user_id : option string)
    (edges : list edge_row) (db : list fact_row) : list related_fact :=
  let timestamp := timestamp_of now at_ in
  let conditions := [edge_window timestamp timestamp] in
  let conditions := push_edge_if relation_type edge_relation_eq conditions in
  let conditions := push_edge_if user_id edge_user_eq conditions in
  let where_ := fun ef : edge_row * fact_row =>
    String.eqb (edge_source_id (fst ef)) fact_id &&
    forallb (fun c => c (fst ef)) conditions &&
    valid_window timestamp timestamp (snd ef) &&
    match provided user_id with
    | Some u => user_id_eq u (snd ef)
    | None => true
    end in
  let rows := sort_by related_not_after (List.filter where_ (join_edges edges db)) in
  map (fun ef => {| rf_fact := row_to_fact (snd ef);
                    rf_relation := edge_relation_type (fst ef);
                    rf_weight := edge_weight (fst ef) |}) rows.

(** ** core/memory.ts: the query methods and [recall] *)

Record TemporalQueryOptions := {
  tq_subject : option string;
  tq_predicate : option string;
  tq_object : option string;
  tq_at : option Z;
  tq_min_confidence : option Q;
  tq_user_id : option string
}.

(** [opts?.min_confidence ?? 0.0] *)
Definition confidence_or_zero (c : option Q) : Q :=
  match c with
  | Some x => x
  | None => 0%Q
  end.

(** [now] is what [new Date()] reads in [opts?.at || new Date()]. *)
Definition queryFacts (this : Memory) (now : Z) (opts : TemporalQueryOptions)
    (db : list fact_row) : list TemporalFact :=
  let at_ := timestamp_of now (tq_at opts) in
  let min_confidence := confidence_or_zero (tq_min_confidence opts) in
  let uid := or_else (tq_user_id opts) (default_user this) in
  query_facts_at_time now (tq_subject opts) (tq_predicate opts) (tq_object opts)
    (Some at_) (Some min_confidence) uid db.

Definition getCurrentFact (this : Memory) (subject predicate : string)
    (user_id : option string) (db : list fact_row) : option TemporalFact :=
  let uid := or_else user_id (default_user this) in
  get_current_fact subject predicate uid db.

Record SubjectOptions := {
  sj_at : option Z;
  sj_include_historical : option bool;
  sj_user_id : option string
}.

Definition getFactsBySubject (this : Memory) (now : Z) (subject : string)
    (opts : SubjectOptions) (db : list fact_row) : list TemporalFact :=
  let uid := or_else (sj_user_id opts) (default_user this) in
  get_facts_by_subject now subject (sj_at opts)
    (match sj_include_historical opts with Some b => b | None => false end)
    uid db.

Record RangeOptions := {
  rg_subject : option string;
  rg_predicate : option string;
  rg_from : option Z;
  rg_to : option Z;
  rg_min_confidence : option Q;
  rg_user_id : option string
}.

Definition queryFactsInRange (this : Memory) (opts : RangeOptions)
    (db : list fact_row) : list TemporalFact :=
  let uid := or_else (rg_user_id opts) (default_user this) in
  query_facts_in_range (rg_subject opts) (rg_predicate opts) (rg_from opts) (rg_to opts)
    (Some (confidence_or_zero (rg_min_confidence opts))) uid db.

Definition searchFacts (ceq : ascii -> ascii -> bool) (this : Memory) (now : Z)
    (pattern : string) (field : option field) (at_ : option Z)
    (user_id : option string) (db : list fact_row) : list TemporalFact :=
  let uid := or_else user_id (default_user this) in
  search_facts ceq now pattern field at_ uid db.

Inductive recall_type := recall_contextual | recall_factual | recall_unified.

Record FactPattern := {
  fp_subject : option string;
  fp_predicate : option string;
  fp_object : option string
}.

Record RecallOptions := {
  ro_type : option recall_type;
  ro_fact_pattern : option FactPattern;
  ro_at : option Z;
  ro_k : option nat;
  ro_sector : option string;
  ro_min_salience : option Q;
  ro_user_id : option string
}.

(** The [filters] object handed to [hsg_query]. *)
Record hsg_filters := {
  flt_sectors : option (list string);
  flt_minSalience : option Q;
  flt_user_id : option string
}.

(** A match of [hsg_query], with the fields [recall] copies. *)
Record hsg_match := {
  m_id : string;
  m_score : Q;
  m_content : string;
  m_primary_sector : string;
  m_sectors : list string;
  m_salience : Q;
  m_last_seen_at : Z;
  m_path : list string
}.

Record RecallResult := {
  rr_contextual : option (list hsg_match);
  rr_factual : option (list TemporalFact)
}.

(** [opts?.fact_pattern?.subject] and its like. *)
Definition pattern_field (p : option FactPattern) (f : FactPattern -> option string)
    : option string :=
  match p with
  | Some x => f x
  | None => None
  end.

Section Recall.

(** The HSG behind [hsg_query] ([memory/hsg.ts]). *)
Variable world : Type.
Variable hsg_query : string -> nat -> hsg_filters -> action world (list hsg_match).

(** The block under "Query HSG if contextual or unified". *)
Definition recall_contextual_block (query : string) (opts : RecallOptions) (k : nat)
    (user_id : option string) (type : recall_type)
    : action world (option (list hsg_match)) :=
  match type with
  | recall_contextual | recall_unified =>
      let filters :=
        {| flt_sectors := match provided (ro_sector opts) with
                          | Some s => Some [s]
                          | None => None
                          end;
           flt_minSalience := ro_min_salience opts;
           flt_user_id := provided user_id |} in
      matches <- hsg_query query k filters ;;
      ret (Some (map (fun m =>
                        {| m_id := m_id m; m_score := m_score m;
                           m_content := m_content m;
                           m_primary_sector := m_primary_sector m;
                           m_sectors := m_sectors m; m_salience := m_salience m;
                           m_last_seen_at := m_last_seen_at m;
                           m_path := m_path m |}) matches))
  | recall_factual => ret None
  end.

(** The block under "Query temporal facts if factual or unified". *)
Definition recall_factual_block (now : Z) (opts : RecallOptions) (at_ : Z)
    (user_id : option string) (type : recall_type) (db : list fact_row)
    : option (list TemporalFact) :=
  match type with
  | recall_factual | recall_unified =>
      Some (query_facts_at_time now
              (pattern_field (ro_fact_pattern opts) fp_subject)
              (pattern_field (ro_fact_pattern opts) fp_predicate)
              (pattern_field (ro_fact_pattern opts) fp_object)
              (Some at_) (Some 0%Q) user_id db)
  | recall_contextual => None
  end.

Definition recall (this : Memory) (now : Z) (query : string) (opts : RecallOptions)
    (db : list fact_row) : action world RecallResult :=
  let type := match ro_type opts with Some t => t | None => recall_unified end in
  let at_ := timestamp_of now (ro_at opts) in
  let k := number_or (ro_k opts) 8 in
  let user_id := or_else (ro_user_id opts) (default_user this) in
  contextual_block <- recall_contextual_block query opts k user_id type ;;
  ret {| rr_contextual := contextual_block;
         rr_factual := recall_factual_block now opts at_ user_id type db |}.

End Recall.

Arguments recall {world} _ _ _ _ _ _.

(** *** [Memory.addFacts] *)

(** An element of the argument of [addFacts], which is also what
    [batch_insert_facts] receives from it. *)
Record fact_arg := {
  fa_subject : string;
  fa_predicate : string;
  fa_object : string;
  fa_confidence : option Q;
  fa_valid_from : option Z;
  fa_metadata : option metadata_map;
  fa_user_id : option string
}.

(** [facts.map(f => ({ ...f, user_id: f.user_id || (uid ?? undefined) }))] *)
Definition factsWithUser (uid : option string) (facts : list fact_arg) : list fact_arg :=
  map (fun f =>
         {| fa_subject := fa_subject f; fa_predicate := fa_predicate f;
            fa_object := fa_object f; fa_confidence := fa_confidence f;
            fa_valid_from := fa_valid_from f; fa_metadata := fa_metadata f;
            fa_user_id := or_else (fa_user_id f) uid |}) facts.

Section AddFacts.

Variable world : Type.
Variable batch_insert_fact_args : list fact_arg -> action world (list string).

Definition addFacts (this : Memory) (facts : list fact_arg) (user_id : option string)
    : action world (list string) :=
  let uid := or_else user_id (default_user this) in
  batch_insert_fact_args (factsWithUser uid facts).

End AddFacts.

Arguments addFacts {world} _ _ _ _.

(** * Properties *)

(** ** What the queries' parameters mean *)

(** A pattern that is omitted, or empty, matches everything. *)
Definition pattern_matches (p : option string) (x : string) : Prop :=
  match p with
  | Some v => v = "" \/ x = v
  | None => True
  end.

(** The user scope; without one (or with an empty one) every row is in scope. *)
Definition in_scope (u : option string) (owner : option string) : Prop :=
  match u with
  | Some v => v = "" \/ owner = Some v
  | None => True
  end.

(** The confidence threshold, which applies when it is positive. *)
Definition confident (min_confidence : Q) (c : Q) : Prop :=
  (0 < min_confidence)%Q -> (min_confidence <= c)%Q.

(** Active at [t]: the validity interval is closed on both sides. *)
Definition active_at (t : Z) (r : fact_row) : Prop :=
  row_valid_from r <= t /\
  match row_valid_to r with
  | Some vt => t <= vt
  | None => True
  end.

(** ** Conditions *)

Lemma provided_Some (x : option string) (v : string) :
  provided x = Some v <-> x = Some v /\ v <> "".
Proof.
  unfold provided, truthy. destruct x as [w|]; [|split; [discriminate|intros [? _]; discriminate]].
  destruct (String.eqb_spec w ""); simpl; split.
  - discriminate.
  - intros [[= ->] H]. contradiction.
  - intros [= ->]. auto.
  - intros [? _]. assumption.
Qed.

Lemma provided_None (x : option string) :
  provided x = None <-> x = None \/ x = Some "".
Proof.
  unfold provided, truthy. destruct x as [w|]; [|intuition].
  destruct (String.eqb_spec w "") as [->|Hne]; simpl; split.
  - auto.
  - reflexivity.
  - discriminate.
  - intros [H|H]; [discriminate|]. injection H as ->. contradiction.
Qed.

Lemma join_and_app (c1 c2 : list condition) (r : fact_row) :
  join_and (c1 ++ c2) r = join_and c1 r && join_and c2 r.
Proof. unfold join_and. apply forallb_app. Qed.

Lemma join_and_push_if (x : option string) (c : string -> condition)
    (conds : list condition) (r : fact_row) :
  join_and (push_if x c conds) r =
  join_and conds r && match provided x with Some v => c v r | None => true end.
Proof.
  unfold push_if. destruct (provided x).
  - rewrite join_and_app. unfold join_and at 2. simpl. now rewrite andb_true_r.
  - now rewrite andb_true_r.
Qed.

Lemma join_and_push_confidence (mc : Q) (conds : list condition) (r : fact_row) :
  join_and (push_confidence mc conds) r =
  join_and conds r && (Qle_bool mc 0 || confidence_ge mc r).
Proof.
  unfold push_confidence. destruct (Qle_bool mc 0); simpl.
  - now rewrite andb_true_r.
  - rewrite join_and_app. unfold join_and at 2. simpl. now rewrite andb_true_r.
Qed.

Lemma pushed_pattern (x : option string) (col : string) :
  match provided x with Some v => String.eqb col v | None => true end = true
  <-> pattern_matches x col.
Proof.
  unfold pattern_matches. destruct (provided x) as [v|] eqn:E.
  - apply provided_Some in E as [-> Hv]. rewrite String.eqb_eq. intuition.
  - apply provided_None in E as [-> | ->]; intuition.
Qed.

Lemma pushed_user (x : option string) (r : fact_row) :
  match provided x with Some v => user_id_eq v r | None => true end = true
  <-> in_scope x (row_user_id r).
Proof.
  unfold in_scope, user_id_eq. destruct (provided x) as [v|] eqn:E.
  - apply provided_Some in E as [-> Hv]. destruct (row_user_id r) as [w|].
    + rewrite String.eqb_eq. split; [intros ->; auto | intros [?|[= ->]]; [contradiction|reflexivity]].
    + split; [discriminate | intros [?|?]; [contradiction|discriminate]].
  - apply provided_None in E as [-> | ->]; intuition.
Qed.

Lemma pushed_confidence (mc c : Q) :
  Qle_bool mc 0 || Qle_bool mc c = true <-> confident mc c.
Proof.
  unfold confident. rewrite orb_true_iff, !Qle_bool_iff. split.
  - intros [H|H] Hpos; [|assumption]. exfalso. now apply (Qlt_not_le _ _ Hpos).
  - intros H. destruct (Qlt_le_dec 0 mc) as [Hpos|Hle]; [right; auto | left; assumption].
Qed.

Lemma valid_window_active (t : Z) (r : fact_row) :
  valid_window t t r = true <-> active_at t r.
Proof.
  unfold valid_window, active_at. rewrite andb_true_iff, Z.leb_le.
  destruct (row_valid_to r); [rewrite Z.geb_le|]; intuition.
Qed.

(** ** ORDER BY and LIMIT *)

Lemma insert_by_Permutation (k : ordering) (x : fact_row) (l : list fact_row) :
  Permutation (insert_by k x l) (x :: l).
Proof.
  induction l as [|y l IH]; simpl; [reflexivity|].
  destruct (not_after k x y); [reflexivity|].
  rewrite IH. apply perm_swap.
Qed.

Lemma order_by_Permutation (k : ordering) (l : list fact_row) :
  Permutation (order_by k l) l.
Proof.
  induction l as [|x l IH]; simpl; [reflexivity|].
  rewrite insert_by_Permutation. now constructor.
Qed.

Lemma In_order_by (k : ordering) (l : list fact_row) (r : fact_row) :
  In r (order_by k l) <-> In r l.
Proof.
  split; apply Permutation_in; [|symmetry]; apply order_by_Permutation.
Qed.

(** An ordering whose "not after" is total and transitive. *)
Definition linear (k : ordering) : Prop :=
  (forall a b, not_after k a b = false -> not_after k b a = true) /\
  (forall a b c, not_after k a b = true -> not_after k b c = true ->
                 not_after k a c = true).

Section Sorting.

Variable k : ordering.
Hypothesis k_linear : linear k.

Let R (a b : fact_row) : Prop := not_after k a b = true.

Lemma insert_by_sorted (x : fact_row) (l : list fact_row) :
  StronglySorted R l -> StronglySorted R (insert_by k x l).
Proof.
  destruct k_linear as [Htot Htr].
  induction 1 as [|y l Hs IH Hall]; simpl.
  - repeat constructor.
  - destruct (not_after k x y) eqn:E.
    + constructor; [now constructor|].
      constructor; [exact E|].
      eapply List.Forall_impl; [|exact Hall]. intros z Hz. eapply Htr; eassumption.
    + constructor; [exact IH|].
      apply List.Forall_forall. intros z Hz.
      apply (Permutation_in _ (insert_by_Permutation k x l)) in Hz.
      destruct Hz as [<-|Hz]; [now apply Htot|].
      rewrite List.Forall_forall in Hall. now apply Hall.
Qed.

Lemma order_by_sorted (l : list fact_row) : StronglySorted R (order_by k l).
Proof.
  induction l as [|x l IH]; simpl; [constructor|]. now apply insert_by_sorted.
Qed.

End Sorting.

Lemma In_firstn {A} (n : nat) (l : list A) (x : A) : In x (firstn n l) -> In x l.
Proof.
  revert l. induction n as [|n IH]; intros [|y l]; simpl; try tauto.
  intros [H|H]; [now left | right; now apply IH].
Qed.

Lemma firstn_sorted {A} (R : A -> A -> Prop) (n : nat) (l : list A) :
  StronglySorted R l -> StronglySorted R (firstn n l).
Proof.
  intros H. revert n. induction H as [|x l Hs IH Hall]; intros [|n]; simpl;
    try constructor.
  - apply IH.
  - apply List.Forall_forall. intros y Hy. rewrite List.Forall_forall in Hall.
    apply Hall. eapply In_firstn; eassumption.
Qed.

Lemma map_sorted {A B} (f : A -> B) (R : A -> A -> Prop) (S : B -> B -> Prop)
    (l : list A) :
  (forall a b, R a b -> S (f a) (f b)) ->
  StronglySorted R l -> StronglySorted S (map f l).
Proof.
  intros HRS. induction 1 as [|x l Hs IH Hall]; simpl; constructor; [assumption|].
  apply List.Forall_forall. intros y Hy. apply in_map_iff in Hy as (z & <- & Hz).
  rewrite List.Forall_forall in Hall. auto.
Qed.

(** The rank of the results: higher confidence first, later [valid_from]
    first among equal confidences. *)
Definition ranked_before (f g : TemporalFact) : Prop :=
  (confidence g < confidence f)%Q \/
  ((confidence g == confidence f)%Q /\ valid_from g <= valid_from f).

Lemma not_after_rank (a b : fact_row) :
  not_after (then_by confidence_desc valid_from_desc) a b = true
  <-> ranked_before (row_to_fact a) (row_to_fact b).
Proof.
  unfold not_after, then_by, confidence_desc, valid_from_desc, ranked_before. simpl.
  destruct (Qcompare_spec (row_confidence b) (row_confidence a)) as [He|Hl|Hg].
  - destruct (Z.compare_spec (row_valid_from b) (row_valid_from a)) as [Hz|Hz|Hz];
      split; intros H;
      try (right; split; [assumption|lia]); try reflexivity; try discriminate.
    destruct H as [H|[_ H]]; [|lia]. rewrite He in H. now apply Qlt_irrefl in H.
  - split; auto.
  - split; [discriminate|]. intros [H|[H _]].
    + exfalso. apply (Qlt_irrefl (row_confidence a)). eapply Qlt_trans; eassumption.
    + rewrite H in Hg. now apply Qlt_irrefl in Hg.
Qed.

Lemma rank_linear : linear (then_by confidence_desc valid_from_desc).
Proof.
  split.
  - intros a b H. apply not_true_iff_false in H. rewrite not_after_rank in *.
    unfold ranked_before in *. simpl in *.
    destruct (Qlt_le_dec (row_confidence a) (row_confidence b)) as [Hl|Hle]; [now left|].
    destruct (Qlt_le_dec (row_confidence b) (row_confidence a)) as [Hl'|Hle'].
    + exfalso. apply H. now left.
    + right. split; [now apply Qle_antisym|].
      destruct (Z_le_gt_dec (row_valid_from b) (row_valid_from a)) as [Hz|Hz]; [|lia].
      exfalso. apply H. right. split; [now apply Qle_antisym | assumption].
  - intros a b c. rewrite !not_after_rank. unfold ranked_before. simpl.
    intros [H1|[H1 H1']] [H2|[H2 H2']].
    + left. eapply Qlt_trans; eassumption.
    + left. now rewrite H2.
    + left. now rewrite <- H1.
    + right. split; [now rewrite H2 | lia].
Qed.

Lemma not_after_valid_from (a b : fact_row) :
  not_after valid_from_desc a b = true <-> row_valid_from b <= row_valid_from a.
Proof.
  unfold not_after, valid_from_desc.
  destruct (Z.compare_spec (row_valid_from b) (row_valid_from a)) as [Hz|Hz|Hz];
    split; intros H0; try reflexivity; try discriminate; lia.
Qed.

Lemma valid_from_linear : linear valid_from_desc.
Proof.
  split.
  - intros a b H. apply not_true_iff_false in H. rewrite not_after_valid_from in *. lia.
  - intros a b c. rewrite !not_after_valid_from. lia.
Qed.

(** ** The rows a query selects *)

Lemma In_all_async (conds : list condition) (order : option ordering)
    (db : list fact_row) (r : fact_row) :
  In r (all_async conds order None db) <-> In r db /\ join_and conds r = true.
Proof.
  unfold all_async. destruct order as [k|].
  - rewrite In_order_by. apply filter_In.
  - apply filter_In.
Qed.

Lemma In_map_row_to_fact (rows : list fact_row) (g : TemporalFact) (P : fact_row -> Prop) :
  (forall r, In r rows <-> P r) ->
  (In g (map row_to_fact rows) <-> exists r, P r /\ g = row_to_fact r).
Proof.
  intros H. rewrite in_map_iff. split; intros (r & H1 & H2).
  - exists r. split; [now apply H | now symmetry].
  - exists r. split; [now symmetry | now apply H].
Qed.

Lemma join_and_single (c : condition) (r : fact_row) : join_and [c] r = c r.
Proof. unfold join_and. simpl. apply andb_true_r. Qed.

(** ** The as-of query *)

Lemma at_time_where (t : Z) (subject predicate object : option string) (mc : Q)
    (user_id : option string) (r : fact_row) :
  join_and
    (push_confidence mc
       (push_if object object_eq
          (push_if predicate predicate_eq
             (push_if subject subject_eq
                (push_if user_id user_id_eq [valid_window t t]))))) r = true
  <->
  active_at t r /\
  in_scope user_id (row_user_id r) /\
  pattern_matches subject (row_subject r) /\
  pattern_matches predicate (row_predicate r) /\
  pattern_matches object (row_object r) /\
  confident mc (row_confidence r).
Proof.
  rewrite join_and_push_confidence, !join_and_push_if, join_and_single.
  rewrite !andb_true_iff.
  rewrite valid_window_active, pushed_user.
  unfold subject_eq, predicate_eq, object_eq, confidence_ge.
  rewrite !pushed_pattern, pushed_confidence. tauto.
Qed.

(** The validity window as the specification words it: closed at
    [valid_from], open at [valid_to]. *)
Definition spec_active_at (t : Z) (r : fact_row) : Prop :=
  row_valid_from r <= t /\
  match row_valid_to r with
  | Some vt => t < vt
  | None => True
  end.

(** Scenario S2 after the second [addFact]: the Acme fact (2023-01-01) closed
    at 2024-06-01, the [valid_from] of the Globex fact that superseded it. *)
Definition acme : fact_row :=
  mk_row "f1" (Some "alice") "alice" "works_at" "Acme"
    1672531200000 (Some 1717200000000) 1%Q 1717200000000 None.
Definition globex : fact_row :=
  mk_row "f2" (Some "alice") "alice" "works_at" "Globex"
    1717200000000 None 1%Q 1717200000000 None.
Definition s2_table : list fact_row := [acme; globex].

(** Scenario S2 at 2023-07-01, and the current employer. *)
Example s2_mid_2023 :
  query_facts_at_time 0 (Some "alice") (Some "works_at") None (Some 1688169600000)
    None (Some "alice") s2_table = [row_to_fact acme].
Proof. vm_compute. reflexivity. Qed.

Example s2_current :
  get_current_fact "alice" "works_at" (Some "alice") s2_table = Some (row_to_fact globex).
Proof. vm_compute. reflexivity. Qed.

(** C1, as stated, fails: queried at 2024-06-01, the instant the Acme fact was
    closed at, the as-of query returns the Acme fact next to the Globex fact,
    although that instant is outside the half-open window of Acme. *)
Lemma as_of_returns_fact_closed_at_t :
  query_facts_at_time 0 (Some "alice") (Some "works_at") None (Some 1717200000000)
    None (Some "alice") s2_table = [row_to_fact globex; row_to_fact acme] /\
  In (row_to_fact acme)
    (query_facts_at_time 0 (Some "alice") (Some "works_at") None (Some 1717200000000)
       None (Some "alice") s2_table) /\
  ~ spec_active_at 1717200000000 acme.
Proof.
  split; [vm_compute; reflexivity|]. split.
  - vm_compute. right. left. reflexivity.
  - unfold spec_active_at, acme. simpl. lia.
Qed.

(** C1 (amended): the as-of query returns exactly the images of the stored
    facts F with valid_from <= t <= valid_to (a null valid_to unbounded; the
    window is closed at valid_to), whose subject, predicate and object equal
    the patterns given (an omitted or empty pattern is a wildcard), whose
    confidence reaches a positive threshold, and that belong to the user when a
    non-empty user id is given. *)
Theorem query_facts_at_time_returns (now : Z) (subject predicate object : option string)
    (at_ : option Z) (min_confidence : option Q) (user_id : option string)
    (db : list fact_row) (g : TemporalFact) :
  In g (query_facts_at_time now subject predicate object at_ min_confidence user_id db)
  <->
  exists F, (In F db /\
             active_at (timestamp_of now at_) F /\
             in_scope user_id (row_user_id F) /\
             pattern_matches subject (row_subject F) /\
             pattern_matches predicate (row_predicate F) /\
             pattern_matches object (row_object F) /\
             confident (min_confidence_of min_confidence) (row_confidence F)) /\
            g = row_to_fact F.
Proof.
  unfold query_facts_at_time. apply In_map_row_to_fact. intros r.
  rewrite In_all_async, at_time_where. tauto.
Qed.

(** ** The range query *)

(** The two predicates of the specification, an omitted bound being
    unbounded: the validity interval meets [from, to], and [valid_from] lies
    in [from, to]. *)
Definition spec_overlaps (from to : option Z) (r : fact_row) : Prop :=
  match to with Some b => row_valid_from r <= b | None => True end /\
  match row_valid_to r, from with
  | Some vt, Some a => a <= vt
  | _, _ => True
  end.

Definition spec_starts_inside (from to : option Z) (r : fact_row) : Prop :=
  match from with Some a => a <= row_valid_from r | None => True end /\
  match to with Some b => row_valid_from r <= b | None => True end.

(** What the WHERE clause built from the bounds selects. *)
Definition range_selects (from to : option Z) (r : fact_row) : Prop :=
  match from, to with
  | Some a, None => a <= row_valid_from r
  | _, _ => spec_overlaps from to r \/ spec_starts_inside from to r
  end.

Lemma in_range_where (from to : option Z) (subject predicate : option string)
    (mc : Q) (user_id : option string) (r : fact_row) :
  join_and
    (push_confidence mc
       (push_if predicate predicate_eq
          (push_if subject subject_eq
             (push_if user_id user_id_eq
                match from, to with
                | Some from_ts, Some to_ts => [range_window to_ts from_ts from_ts to_ts]
                | Some from_ts, None => [valid_from_ge from_ts]
                | None, Some to_ts => [valid_from_le to_ts]
                | None, None => []
                end)))) r = true
  <->
  range_selects from to r /\
  in_scope user_id (row_user_id r) /\
  pattern_matches subject (row_subject r) /\
  pattern_matches predicate (row_predicate r) /\
  confident mc (row_confidence r).
Proof.
  rewrite join_and_push_confidence, !join_and_push_if.
  rewrite !andb_true_iff, pushed_user.
  unfold subject_eq, predicate_eq, confidence_ge.
  rewrite !pushed_pattern, pushed_confidence.
  assert (Hw : join_and
                 match from, to with
                 | Some from_ts, Some to_ts => [range_window to_ts from_ts from_ts to_ts]
                 | Some from_ts, None => [valid_from_ge from_ts]
                 | None, Some to_ts => [valid_from_le to_ts]
                 | None, None => []
                 end r = true <-> range_selects from to r).
  { unfold range_selects, spec_overlaps, spec_starts_inside.
    destruct from as [a|], to as [b|]; try rewrite join_and_single.
    - unfold range_window, valid_window.
      rewrite orb_true_iff, !andb_true_iff, !Z.leb_le, Z.geb_le.
      destruct (row_valid_to r); [rewrite Z.geb_le|]; intuition.
    - unfold valid_from_ge. rewrite Z.geb_le. tauto.
    - unfold valid_from_le. rewrite Z.leb_le. destruct (row_valid_to r); tauto.
    - unfold join_and. simpl. destruct (row_valid_to r); tauto. }
  rewrite Hw. tauto.
Qed.

(** A fact open since 50, asked for from 100 on. *)
Definition open_since_50 : fact_row :=
  mk_row "f1" (Some "alice") "alice" "works_at" "Acme" 50 None 1%Q 50 None.



(** C5: whatever the store, the instant [t] and the common subject,
    predicate, confidence threshold and user scope, every fact returned by the
    as-of query at [t] is returned by the range query from [t] to [t]. *)
Theorem as_of_subset_of_range (now : Z) (subject predicate object : option string)
    (t : Z) (min_confidence : option Q) (user_id : option string)
    (db : list fact_row) (g : TemporalFact) :
  In g (query_facts_at_time now subject predicate object (Some t) min_confidence
          user_id db) ->
  In g (query_facts_in_range subject predicate (Some t) (Some t) min_confidence
          user_id db).
Proof.
  unfold query_facts_at_time, query_facts_in_range. rewrite !in_map_iff.
  intros (r & <- & Hr). exists r. split; [reflexivity|].
  rewrite In_all_async in *. destruct Hr as [Hdb Hr]. split; [assumption|].
  apply at_time_where in Hr as (Hact & Hu & Hs & Hp & _ & Hc).
  apply (in_range_where (Some t) (Some t)). repeat split; try assumption.
  left. unfold active_at in Hact. simpl in Hact. unfold spec_overlaps.
  destruct (row_valid_to r); tauto.
Qed.

Lemma as_of_subset_of_range_s2 :
  In (row_to_fact globex)
    (query_facts_in_range (Some "alice") (Some "works_at") (Some 1717200000000)
       (Some 1717200000000) None (Some "alice") s2_table).
Proof.
  apply (as_of_subset_of_range 0 (Some "alice") (Some "works_at") None).
  vm_compute. left. reflexivity.
Defined.

(** ** The current fact *)

(** The rows [get_current_fact] chooses from. *)
Definition current_candidate (subject predicate : string) (user_id : option string)
    (r : fact_row) : Prop :=
  row_subject r = subject /\
  row_predicate r = predicate /\
  row_valid_to r = None /\
  in_scope user_id (row_user_id r).

Lemma current_where (subject predicate : string) (user_id : option string)
    (r : fact_row) :
  join_and (push_if user_id user_id_eq
              [subject_eq subject; predicate_eq predicate; valid_to_is_null]) r = true
  <-> current_candidate subject predicate user_id r.
Proof.
  rewrite join_and_push_if, andb_true_iff, pushed_user.
  unfold join_and, current_candidate, subject_eq, predicate_eq, valid_to_is_null. simpl.
  rewrite !andb_true_iff, !String.eqb_eq.
  destruct (row_valid_to r); intuition; discriminate.
Qed.


Lemma hd_error_In {A} (l : list A) (x : A) : List.hd_error l = Some x -> In x l.
Proof. destruct l; simpl; [discriminate|]. intros [= ->]. now left. Qed.




(** ** User scoping of the queries *)

(** The part of the table that belongs to [u]. *)
Definition owned_rows (u : string) (db : list fact_row) : list fact_row :=
  List.filter (fun r => match row_user_id r with
                        | Some v => String.eqb v u
                        | None => false
                        end) db.

(** A query shows only facts of [u], and shows the same on two tables that
    hold the same facts of [u]. *)
Definition scoped_to (u : string) (q : list fact_row -> list TemporalFact) : Prop :=
  (forall db f, In f (q db) -> user_id f = Some u) /\
  (forall db1 db2, owned_rows u db1 = owned_rows u db2 -> q db1 = q db2).

Lemma In_all_async_limit (conds : list condition) (order : option ordering)
    (limit : option nat) (db : list fact_row) (r : fact_row) :
  In r (all_async conds order limit db) -> In r db /\ join_and conds r = true.
Proof.
  intros H. apply (In_all_async conds order). unfold all_async in *.
  destruct limit as [n|]; [|assumption]. eapply In_firstn. eassumption.
Qed.

(** The conditions let through rows of [u] only. *)
Definition guards (u : string) (conds : list condition) : Prop :=
  forall r, join_and conds r = true -> row_user_id r = Some u.

Lemma guards_push_user (u : string) (base : list condition) :
  u <> "" -> guards u (push_if (Some u) user_id_eq base).
Proof.
  intros Hu r. rewrite join_and_push_if, andb_true_iff, pushed_user.
  intros [_ [H|H]]; [contradiction | assumption].
Qed.

Lemma guards_push_if (u : string) (x : option string) (c : string -> condition)
    (conds : list condition) :
  guards u conds -> guards u (push_if x c conds).
Proof.
  intros H r. rewrite join_and_push_if, andb_true_iff. intros [Hr _]. now apply H.
Qed.

Lemma guards_push_confidence (u : string) (mc : Q) (conds : list condition) :
  guards u conds -> guards u (push_confidence mc conds).
Proof.
  intros H r. rewrite join_and_push_confidence, andb_true_iff. intros [Hr _]. now apply H.
Qed.

Lemma filter_owned (u : string) (conds : list condition) (db : list fact_row) :
  guards u conds ->
  List.filter (join_and conds) db = List.filter (join_and conds) (owned_rows u db).
Proof.
  intros Hg. unfold owned_rows. induction db as [|r db IH]; simpl; [reflexivity|].
  destruct (join_and conds r) eqn:E.
  - rewrite (Hg r E), String.eqb_refl. simpl. rewrite E. now f_equal.
  - destruct (match row_user_id r with Some v => String.eqb v u | None => false end);
      simpl; [rewrite E|]; exact IH.
Qed.

Lemma all_async_owned (u : string) (conds : list condition) (order : option ordering)
    (limit : option nat) (db1 db2 : list fact_row) :
  guards u conds -> owned_rows u db1 = owned_rows u db2 ->
  all_async conds order limit db1 = all_async conds order limit db2.
Proof.
  intros Hg H. unfold all_async.
  rewrite (filter_owned u conds db1 Hg), (filter_owned u conds db2 Hg), H. reflexivity.
Qed.

Lemma select_scoped (u : string) (conds : list condition) (order : option ordering)
    (limit : option nat) :
  guards u conds ->
  scoped_to u (fun db => map row_to_fact (all_async conds order limit db)).
Proof.
  intros Hg. split.
  - intros db f Hf. apply in_map_iff in Hf as (r & <- & Hr).
    apply In_all_async_limit in Hr as [_ Hr]. simpl. now apply Hg.
  - intros db1 db2 H. f_equal. now apply (all_async_owned u).
Qed.

(** C2: called with a user id [u] (a non-empty string, which is what the
    guards [if (user_id)] test), each of query_facts_at_time, get_current_fact,
    query_facts_in_range, find_conflicting_facts, get_facts_by_subject and
    search_facts returns only facts whose user_id is [u], and returns the same
    result on any two fact stores that hold the same facts of [u]. *)
Theorem queries_scoped_to_user (u : string) :
  u <> "" ->
  (forall now s p o at_ mc,
      scoped_to u (query_facts_at_time now s p o at_ mc (Some u))) /\
  (forall s p,
      scoped_to u (fun db => option_list (get_current_fact s p (Some u) db))) /\
  (forall s p from to mc,
      scoped_to u (query_facts_in_range s p from to mc (Some u))) /\
  (forall now s p at_,
      scoped_to u (find_conflicting_facts now s p at_ (Some u))) /\
  (forall now s at_ historical,
      scoped_to u (get_facts_by_subject now s at_ historical (Some u))) /\
  (forall ceq now pattern f at_,
      scoped_to u (search_facts ceq now pattern f at_ (Some u))).
Proof.
  intros Hu. repeat apply conj.
  - intros. unfold query_facts_at_time. apply select_scoped.
    apply guards_push_confidence. do 3 apply guards_push_if. now apply guards_push_user.
  - intros s p. unfold get_current_fact, get_async.
    pose proof (guards_push_user u
                  [subject_eq s; predicate_eq p; valid_to_is_null] Hu) as Hg.
    split.
    + intros db f.
      destruct (List.hd_error _) as [r|] eqn:E; simpl; [|tauto].
      intros [<-|[]]. apply hd_error_In, In_all_async_limit in E as [_ E].
      simpl. now apply Hg.
    + intros db1 db2 H.
      now rewrite (all_async_owned u _ (Some valid_from_desc) (Some 1%nat) db1 db2 Hg H).
  - intros. unfold query_facts_in_range. apply select_scoped.
    apply guards_push_confidence. do 2 apply guards_push_if. now apply guards_push_user.
  - intros. unfold find_conflicting_facts. apply select_scoped.
    now apply guards_push_user.
  - intros now s at_ historical. unfold get_facts_by_subject.
    destruct historical; apply select_scoped; now apply guards_push_user.
  - intros. unfold search_facts. apply select_scoped. now apply guards_push_user.
Qed.

(** Scenario S6: two users each hold an "Acme" fact. *)
Definition bob_acme : fact_row :=
  mk_row "f3" (Some "bob") "bob" "works_at" "Acme" 10 None 1%Q 10 None.

Lemma search_as_alice_hides_bob :
  "alice" <> "" /\
  search_facts Ascii.eqb 100 "Ac" (Some Object) None (Some "alice") [bob_acme; open_since_50]
  = search_facts Ascii.eqb 100 "Ac" (Some Object) None (Some "alice") [open_since_50].
Proof.
  split; [discriminate|].
  destruct (queries_scoped_to_user "alice" ltac:(discriminate)) as (_ & _ & _ & _ & _ & H).
  apply (H Ascii.eqb 100 "Ac" (Some Object) None). reflexivity.
Defined.

(** ** Search *)

(** [p] occurs in [s] as a run of characters, each equal to its counterpart
    under [ceq]: literally, for [Ascii.eqb]. *)
Fixpoint prefixb (ceq : ascii -> ascii -> bool) (p s : string) : bool :=
  match p, s with
  | EmptyString, _ => true
  | String _ _, EmptyString => false
  | String c p', String d s' => ceq c d && prefixb ceq p' s'
  end.

Fixpoint substringb (ceq : ascii -> ascii -> bool) (p s : string) : bool :=
  prefixb ceq p s ||
  match s with
  | EmptyString => false
  | String _ s' => substringb ceq p s'
  end.

(** No character of the pattern is a LIKE wildcard. *)
Fixpoint wildcard_free (p : string) : bool :=
  match p with
  | EmptyString => true
  | String c p' => negb (Ascii.eqb c "%") && negb (Ascii.eqb c "_") && wildcard_free p'
  end.



Lemma like_percent (ceq : ascii -> ascii -> bool) (q s : string) :
  like_match ceq (String "%" q) s =
  like_match ceq q s ||
  match s with
  | EmptyString => false
  | String _ s' => like_match ceq (String "%" q) s'
  end.
Proof. destruct s; reflexivity. Qed.

Lemma like_percent_only (ceq : ascii -> ascii -> bool) (s : string) :
  like_match ceq "%" s = true.
Proof.
  induction s as [|d s IH]; [reflexivity|].
  rewrite like_percent, IH. apply orb_true_r.
Qed.

Lemma like_free_prefix (ceq : ascii -> ascii -> bool) (p s : string) :
  wildcard_free p = true ->
  like_match ceq (p +:+ "%") s = prefixb ceq p s.
Proof.
  revert s. induction p as [|c p IH]; intros s Hp.
  - simpl String.append. rewrite like_percent_only. reflexivity.
  - simpl in Hp. apply andb_true_iff in Hp as [Hc Hp].
    apply andb_true_iff in Hc as [H1 H2].
    apply negb_true_iff in H1, H2.
    simpl. rewrite H1, H2. destruct s as [|d s]; [reflexivity|].
    now rewrite IH.
Qed.

Lemma like_free_substring (ceq : ascii -> ascii -> bool) (p s : string) :
  wildcard_free p = true ->
  like_match ceq ("%" +:+ p +:+ "%") s = substringb ceq p s.
Proof.
  intros Hp. change ("%" +:+ p +:+ "%") with (String "%" (p +:+ "%")).
  induction s as [|d s IH]; rewrite like_percent, like_free_prefix by assumption.
  - reflexivity.
  - now rewrite IH.
Qed.







(** ** Mutating a fact of another user *)

Lemma append_cancel_l (a b c : string) : a +:+ b = a +:+ c -> b = c.
Proof. induction a as [|x a IH]; simpl; [auto|]. intros [= H]. auto. Qed.

Lemma not_found_messages_differ (i u : string) :
  "Fact " +:+ i +:+ " not found for user " +:+ u <> "Fact " +:+ i +:+ " not found".
Proof.
  intros H. apply (append_cancel_l "Fact ") in H. apply append_cancel_l in H.
  simpl in H. discriminate H.
Qed.

Lemma select_owner_first (i : string) (db : list fact_row) :
  match get_async [id_eq i] None None db with
  | Some f => In f db /\ row_id f = i
  | None => forall r, In r db -> row_id r <> i
  end.
Proof.
  unfold get_async, all_async.
  assert (H : forall r, In r (List.filter (join_and [id_eq i]) db)
                        <-> In r db /\ row_id r = i).
  { intros r. rewrite filter_In, join_and_single. unfold id_eq.
    now rewrite String.eqb_eq. }
  destruct (List.filter (join_and [id_eq i]) db) as [|f rows]; simpl.
  - intros r Hr Hi. apply (H r). auto.
  - apply H. now left.
Qed.

Lemma validate_ownership_foreign (uid : option string) (u i : string)
    (db : list fact_row) :
  provided uid = Some u ->
  (exists r, In r db /\ row_id r = i) ->
  (forall r, In r db -> row_id r = i -> row_user_id r <> Some u) ->
  validate_ownership uid i db
  = (inl ("Fact " +:+ i +:+ " not found for user " +:+ u), db).
Proof.
  intros Hu (r & Hr & Hi) Hforeign. unfold validate_ownership. rewrite Hu.
  unfold bind, select_owner. pose proof (select_owner_first i db) as Hsel.
  destruct (get_async [id_eq i] None None db) as [f|].
  - destruct Hsel as [Hf Hfi]. specialize (Hforeign f Hf Hfi).
    unfold owner_differs. destruct (row_user_id f) as [w|]; [|reflexivity].
    destruct (String.eqb_spec w u) as [->|Hne]; [contradiction|reflexivity].
  - exfalso. exact (Hsel r Hr Hi).
Qed.

Lemma validate_ownership_absent (uid : option string) (u i : string)
    (db : list fact_row) :
  provided uid = Some u ->
  (forall r, In r db -> row_id r <> i) ->
  validate_ownership uid i db = (inl ("Fact " +:+ i +:+ " not found"), db).
Proof.
  intros Hu Habsent. unfold validate_ownership. rewrite Hu.
  unfold bind, select_owner. pose proof (select_owner_first i db) as Hsel.
  destruct (get_async [id_eq i] None None db) as [f|]; [|reflexivity].
  destruct Hsel as [Hf Hfi]. exfalso. exact (Habsent f Hf Hfi).
Qed.

Definition alice_memory : Memory := new_Memory (Some "alice").

(** C3, as stated, fails: deleting (updating, invalidating) as alice the fact
    f3 of bob throws a message that differs from the one thrown when no fact
    f3 exists, so the caller can tell the two cases apart. *)
Lemma foreign_fact_error_differs_from_absent :
  fst (deleteFact spec_delete_fact alice_memory "f3" None [bob_acme])
  = inl "Fact f3 not found for user alice" /\
  fst (deleteFact spec_delete_fact alice_memory "f3" None [])
  = inl "Fact f3 not found" /\
  fst (deleteFact spec_delete_fact alice_memory "f3" None [bob_acme])
  <> fst (deleteFact spec_delete_fact alice_memory "f3" None []) /\
  fst (invalidateFact (spec_invalidate_fact 100) alice_memory "f3" None None [bob_acme])
  <> fst (invalidateFact (spec_invalidate_fact 100) alice_memory "f3" None None []) /\
  fst (updateFact (spec_update_fact (fun _ => "{}")) alice_memory "f3"
         {| uo_confidence := None; uo_metadata := None; uo_user_id := None |} [bob_acme])
  <> fst (updateFact (spec_update_fact (fun _ => "{}")) alice_memory "f3"
            {| uo_confidence := None; uo_metadata := None; uo_user_id := None |} []).
Proof.
  split; [vm_compute; reflexivity|]. split; [vm_compute; reflexivity|].
  repeat split; vm_compute; discriminate.
Qed.

(** C3 (amended): called with a user scope [u], each of updateFact,
    invalidateFact and deleteFact fails on a fact id that exists but belongs
    to another user, and leaves every fact as it was; the error thrown names
    the user ("Fact <id> not found for user <u>") and differs from the one
    thrown for an id that does not exist ("Fact <id> not found"), which also
    leaves the facts as they were. *)
Theorem foreign_fact_mutations_fail
    (update_fact : string -> option Q -> option metadata_map ->
                   list fact_row -> list fact_row)
    (invalidate_fact : string -> option Z -> list fact_row -> list fact_row)
    (delete_fact : string -> list fact_row -> list fact_row)
    (this : Memory) (user_id : option string) (u i : string)
    (new_confidence : option Q) (new_metadata : option metadata_map)
    (new_valid_to : option Z) (db : list fact_row) :
  provided (or_else user_id (default_user this)) = Some u ->
  let opts := {| uo_confidence := new_confidence; uo_metadata := new_metadata;
                 uo_user_id := user_id |} in
  let foreign := inl ("Fact " +:+ i +:+ " not found for user " +:+ u) in
  let absent := inl ("Fact " +:+ i +:+ " not found") in
  ((exists r, In r db /\ row_id r = i) ->
   (forall r, In r db -> row_id r = i -> row_user_id r <> Some u) ->
   updateFact update_fact this i opts db = (foreign, db) /\
   invalidateFact invalidate_fact this i new_valid_to user_id db = (foreign, db) /\
   deleteFact delete_fact this i user_id db = (foreign, db)) /\
  ((forall r, In r db -> row_id r <> i) ->
   updateFact update_fact this i opts db = (absent, db) /\
   invalidateFact invalidate_fact this i new_valid_to user_id db = (absent, db) /\
   deleteFact delete_fact this i user_id db = (absent, db)) /\
  foreign <> absent :> string + unit.
Proof.
  intros Hu opts foreign absent. split; [|split].
  - intros Hex Hforeign.
    unfold updateFact, invalidateFact, deleteFact, bind. simpl.
    now rewrite (validate_ownership_foreign _ u i db Hu Hex Hforeign).
  - intros Habsent.
    unfold updateFact, invalidateFact, deleteFact, bind. simpl.
    now rewrite (validate_ownership_absent _ u i db Hu Habsent).
  - unfold foreign, absent. intros H.
    apply (f_equal (fun x : string + unit => match x with inl m => m | inr _ => "" end)) in H.
    exact (not_found_messages_differ i u H).
Qed.

Lemma foreign_fact_mutations_fail_bob :
  deleteFact spec_delete_fact alice_memory "f3" None [bob_acme; open_since_50]
  = (inl "Fact f3 not found for user alice", [bob_acme; open_since_50]).
Proof.
  assert (Hu : provided (or_else None (default_user alice_memory)) = Some "alice")
    by reflexivity.
  destruct (foreign_fact_mutations_fail (spec_update_fact (fun _ => "{}"))
              (spec_invalidate_fact 100) spec_delete_fact alice_memory None
              "alice" "f3" None None None [bob_acme; open_since_50] Hu)
    as [H _].
  apply H.
  - exists bob_acme. split; [now left | reflexivity].
  - intros r [<-|[<-|[]]]; simpl; intros; discriminate.
Defined.

(** ** The pgvector search *)

Arguments v_id {vector} _.
Arguments v_sector {vector} _.
Arguments v_user_id {vector} _.
Arguments v {vector} _.
Arguments v_dim {vector} _.
Arguments searchSimilar {vector} _ _ _ _ _ _ _.
Arguments run_search {vector} _ _ _ _ _.
Arguments search_where {vector} _ _.

(** C8, as stated, fails: asked for 10 neighbours, [searchSimilar] puts 10
    into the LIMIT of its statement, which is not 10 * F for any F >= 3. *)
Lemma searchSimilar_limit_is_topK :
  limit_param (search_statement_of "semantic" 10 (Some "alice")) = 10%nat /\
  ~ (exists F : nat, (3 <= F)%nat /\
       limit_param (search_statement_of "semantic" 10 (Some "alice")) = (10 * F)%nat).
Proof.
  split; [reflexivity|]. intros (F & HF & H).
  change (limit_param (search_statement_of "semantic" 10 (Some "alice"))) with 10%nat in H.
  lia.
Qed.

(** C8 (amended): [searchSimilar] passes its [topK] unchanged as the LIMIT
    of the statement (no over-fetch factor is applied in it) together with
    the sector and, when a non-empty user id is given, the user in the WHERE
    clause; whatever rows of the table the index scan reaches, the result
    holds at most [topK] entries, each the id of a row of the table in the
    requested sector with the score 1 minus the cosine distance between that
    row's vector and the query, and each a row of the user when a non-empty
    user id is given. *)
Theorem searchSimilar_returns (vector : Type) (cosine_distance : vector -> vector -> Q)
    (index_scan : vector -> list (vector_row vector) -> list (vector_row vector))
    (sector : string) (queryVec : vector) (topK : nat) (user_id : option string)
    (table : list (vector_row vector)) :
  (forall q t row, In row (index_scan q t) -> In row t) ->
  limit_param (search_statement_of sector topK user_id) = topK /\
  (length (searchSimilar cosine_distance index_scan sector queryVec topK user_id table)
   <= topK)%nat /\
  forall h,
    In h (searchSimilar cosine_distance index_scan sector queryVec topK user_id table) ->
    exists row,
      In row table /\
      hit_id h = v_id row /\
      hit_score h = (1 - cosine_distance (v row) queryVec)%Q /\
      v_sector row = sector /\
      forall u, user_id = Some u -> u <> "" -> v_user_id row = u.
Proof.
  intros Hscan. split; [|split].
  - unfold search_statement_of. now destruct (provided user_id).
  - unfold searchSimilar, run_search. rewrite length_map.
    etransitivity; [apply firstn_le_length|].
    unfold search_statement_of. destruct (provided user_id); simpl; lia.
  - intros h Hh. unfold searchSimilar, run_search in Hh.
    apply in_map_iff in Hh as (row & <- & Hrow).
    apply In_firstn, filter_In in Hrow as [Hrow Hw].
    exists row. split; [now apply (Hscan queryVec)|].
    split; [reflexivity|]. split; [reflexivity|].
    unfold search_where in Hw. apply andb_true_iff in Hw as [Hs Hu].
    assert (Hsec : where_sector (search_statement_of sector topK user_id) = sector).
    { unfold search_statement_of. now destruct (provided user_id). }
    rewrite Hsec in Hs. apply String.eqb_eq in Hs. split; [assumption|].
    intros u -> Hne.
    assert (Hp : provided (Some u) = Some u) by (apply provided_Some; auto).
    unfold search_statement_of in Hu. rewrite Hp in Hu. simpl in Hu.
    now apply String.eqb_eq in Hu.
Qed.

(** One-dimensional vectors: the cosine distance is 0 between numbers of the
    same sign and 2 between numbers of opposite signs (taken as 1 when one of
    them is 0). *)
Definition cosine_distance_1d (a b : Z) : Q :=
  match Z.sgn (a * b) with
  | Zpos _ => 0%Q
  | Zneg _ => 2%Q
  | Z0 => 1%Q
  end.

Definition toy_vectors : list (vector_row Z) :=
  [ {| v_id := "m1"; v_sector := "semantic"; v_user_id := "bob"; v := 5; v_dim := 1 |};
    {| v_id := "m2"; v_sector := "semantic"; v_user_id := "alice"; v := 3; v_dim := 1 |};
    {| v_id := "m3"; v_sector := "episodic"; v_user_id := "alice"; v := 2; v_dim := 1 |};
    {| v_id := "m4"; v_sector := "semantic"; v_user_id := "alice"; v := -1; v_dim := 1 |} ].

Lemma searchSimilar_returns_toy :
  (length (searchSimilar cosine_distance_1d (fun _ t => t) "semantic" 4%Z 1%nat
             (Some "alice") toy_vectors) <= 1)%nat.
Proof.
  apply (searchSimilar_returns Z cosine_distance_1d (fun _ t => t) "semantic" 4 1%nat
           (Some "alice") toy_vectors).
  intros q t row H. exact H.
Defined.

(** ** Cross-linking in [store] *)

Arguments store {world} _ _ _ _ _ _ _.

Lemma facts_to_insert_metadata (now : Z) (meta : metadata_map) (uid : option string)
    (facts : list fact_input) (x : fact_insert) :
  In x (facts_to_insert now meta uid facts) -> ins_metadata x = meta.
Proof.
  unfold facts_to_insert. rewrite in_map_iff. intros (f & <- & _). reflexivity.
Qed.

(** The [temporal] part of the result, from the ids the batch insert returns. *)
Definition temporal_entries (facts : list fact_input) (fact_ids : list string)
    : list temporal_entry :=
  imap (fun index fact =>
          {| te_id := fact_ids !! index;
             te_subject := fi_subject fact;
             te_predicate := fi_predicate fact;
             te_object := fi_object fact |}) facts.

(** C9: with type 'both', a content and a facts array, [store] first inserts
    the HSG memory and then, in the state that insert leaves, inserts one
    temporal fact per given fact, each carrying in its metadata the
    source_memory_id of the memory just created (the id [add_hsg_memory]
    returned, a non-empty string); with type 'factual' and a non-empty facts
    array no HSG insert takes place and every inserted fact carries the
    caller's metadata as it is, with no source_memory_id added. *)
Theorem store_links_facts_to_memory (world : Type)
    (add_hsg_memory : string -> string -> metadata_map -> option string ->
                      action world hsg_entry)
    (batch_insert_facts : list fact_insert -> action world (list string))
    (stringify : list string -> string)
    (this : Memory) (now : Z) (content : string) (opts : StoreOptions)
    (facts : list fact_input) (w : world) :
  so_facts opts = Some facts ->
  let uid := or_else (so_user_id opts) (default_user this) in
  let tags := match so_tags opts with Some t => t | None => [] end in
  let meta := spread (so_metadata opts) in
  (so_type opts = Some both -> content <> "" ->
   forall (h : hsg_entry) (w1 : world),
     add_hsg_memory content (stringify tags) meta uid w = (inr h, w1) ->
     hsg_id h <> "" ->
     let inserted :=
       facts_to_insert now (<["source_memory_id" := JString (hsg_id h)]> meta) uid facts in
     store add_hsg_memory batch_insert_facts stringify this now content opts w
     = (fact_ids <- batch_insert_facts inserted ;;
        ret {| hsg := Some h; temporal := Some (temporal_entries facts fact_ids) |}) w1 /\
     length inserted = length facts /\
     forall x, In x inserted ->
               ins_metadata x !! "source_memory_id" = Some (JString (hsg_id h))) /\
  (so_type opts = Some factual -> facts <> [] ->
   let inserted := facts_to_insert now meta uid facts in
   store add_hsg_memory batch_insert_facts stringify this now content opts w
   = (fact_ids <- batch_insert_facts inserted ;;
      ret {| hsg := None; temporal := Some (temporal_entries facts fact_ids) |}) w /\
   length inserted = length facts /\
   forall x, In x inserted ->
             ins_metadata x = meta /\
             ins_metadata x !! "source_memory_id" = meta !! "source_memory_id").
Proof.
  intros Hfacts uid tags meta. split.
  - intros Htype Hcontent h w1 Hhsg Hid inserted. split; [|split].
    + subst uid tags meta inserted. unfold store. rewrite Htype.
      destruct h as [hid hp hs]. cbn [hsg_id] in *.
      assert (Hc : String.eqb content "" = false) by now apply String.eqb_neq.
      assert (Hi : String.eqb hid "" = false) by now apply String.eqb_neq.
      unfold throw_if, store_hsg, store_temporal, link_meta, truthy, bind, ret.
      rewrite Hc. cbn [andb negb]. rewrite Hhsg, Hfacts.
      cbn [hsg_id hsg_primary_sector hsg_sectors]. rewrite Hi. cbn [negb].
      unfold temporal_entries.
      destruct (batch_insert_facts _ w1) as [[message|fact_ids] w2]; reflexivity.
    + unfold inserted, facts_to_insert. apply length_map.
    + intros x Hx. apply facts_to_insert_metadata in Hx. rewrite Hx.
      apply lookup_insert_eq.
  - intros Htype Hne inserted. split; [|split].
    + subst uid tags meta inserted. unfold store. rewrite Htype.
      unfold throw_if, store_hsg, store_temporal, link_meta, bind, ret.
      rewrite Hfacts. destruct facts as [|f facts]; [contradiction|].
      cbn [andb]. unfold temporal_entries.
      destruct (batch_insert_facts _ w) as [[message|fact_ids] w2]; reflexivity.
    + unfold inserted, facts_to_insert. apply length_map.
    + intros x Hx. apply facts_to_insert_metadata in Hx. now rewrite Hx.
Qed.

(** A journal of the calls as the world: the HSG insert answers with the id
    "mem-1", the batch insert with one id per fact. *)
Definition journal_add_hsg (content tags : string) (meta : metadata_map)
    (uid : option string) : action (list string) hsg_entry := fun w =>
  (inr {| hsg_id := "mem-1"; hsg_primary_sector := "semantic";
          hsg_sectors := ["semantic"] |},
   w ++ ["add_hsg_memory " +:+ content]).

Definition journal_batch_insert (facts : list fact_insert)
    : action (list string) (list string) := fun w =>
  (inr (map (fun f => "fact-" +:+ ins_subject f) facts),
   w ++ map (fun f => "insert_fact " +:+ ins_subject f) facts).

Definition john_facts : list fact_input :=
  [ {| fi_subject := "John"; fi_predicate := "works_at"; fi_object := "Acme Corp";
       fi_confidence := None; fi_valid_from := None |} ].

Definition john_opts (t : store_type) : StoreOptions :=
  {| so_type := Some t; so_facts := Some john_facts; so_tags := Some ["employment"];
     so_metadata := None; so_user_id := Some "alice" |}.

Lemma store_links_john_to_memory :
  store journal_add_hsg journal_batch_insert (fun _ => "[tags]") (new_Memory None) 100
    "John started at Acme Corp" (john_opts both) []
  = (fact_ids <- journal_batch_insert
                   (facts_to_insert 100 (<["source_memory_id" := JString "mem-1"]> ∅)
                      (Some "alice") john_facts) ;;
     ret {| hsg := Some {| hsg_id := "mem-1"; hsg_primary_sector := "semantic";
                           hsg_sectors := ["semantic"] |};
            temporal := Some (temporal_entries john_facts fact_ids) |})
      ["add_hsg_memory John started at Acme Corp"].
Proof.
  destruct (store_links_facts_to_memory (list string) journal_add_hsg
              journal_batch_insert (fun _ => "[tags]") (new_Memory None) 100
              "John started at Acme Corp" (john_opts both) john_facts []
              eq_refl) as [Hboth _].
  assert (Hcontent : "John started at Acme Corp" <> "") by discriminate.
  destruct (Hboth eq_refl Hcontent
              {| hsg_id := "mem-1"; hsg_primary_sector := "semantic";
                 hsg_sectors := ["semantic"] |}
              ["add_hsg_memory John started at Acme Corp"] eq_refl)
    as (H & _ & _).
  - simpl. discriminate.
  - exact H.
Defined.

(** ** Paging in [Memory.list] *)

(** alice holds two episodic memories and, after them, a semantic one. *)
Definition alice_memories : list mem_row :=
  [ {| mem_id := "m1"; mem_user_id := Some "alice"; mem_content := "went hiking";
       mem_primary_sector := "episodic" |};
    {| mem_id := "m2"; mem_user_id := Some "alice"; mem_content := "met bob";
       mem_primary_sector := "episodic" |};
    {| mem_id := "m3"; mem_user_id := Some "alice"; mem_content := "likes python";
       mem_primary_sector := "semantic" |} ].

Definition semantic_page_of_two : ListOptions :=
  {| lo_user_id := Some "alice"; lo_limit := Some 2%nat; lo_offset := None;
     lo_sector := Some "semantic" |}.

(** C10: with a user and a sector, [Memory.list] cuts the page by limit and
    offset out of all memories of the user and only then keeps the rows of
    the sector, so that for some stores it returns fewer rows than the limit
    (none at all) while the user holds a memory of that sector outside the
    page; without a user the page is cut out of the rows of the sector. *)
Theorem list_pages_before_sector_filter :
  (forall this opts memories u s,
      provided (or_else (lo_user_id opts) (default_user this)) = Some u ->
      provided (lo_sector opts) = Some s ->
      Memory_list this opts memories =
      List.filter (fun row => String.eqb (mem_primary_sector row) s)
        (firstn (number_or (lo_limit opts) 10)
           (skipn (number_or (lo_offset opts) 0)
              (List.filter (fun row => match mem_user_id row with
                                       | Some v => String.eqb v u
                                       | None => false
                                       end) memories)))) /\
  (exists this opts memories u s row,
      provided (or_else (lo_user_id opts) (default_user this)) = Some u /\
      provided (lo_sector opts) = Some s /\
      Memory_list this opts memories = [] /\
      (length (Memory_list this opts memories) < number_or (lo_limit opts) 10)%nat /\
      In row memories /\ mem_user_id row = Some u /\ mem_primary_sector row = s) /\
  (forall this opts memories s,
      provided (or_else (lo_user_id opts) (default_user this)) = None ->
      provided (lo_sector opts) = Some s ->
      Memory_list this opts memories =
      firstn (number_or (lo_limit opts) 10)
        (skipn (number_or (lo_offset opts) 0)
           (List.filter (fun row => String.eqb (mem_primary_sector row) s) memories))).
Proof.
  split; [|split].
  - intros this opts memories u s Hu Hs. unfold Memory_list. now rewrite Hu, Hs.
  - exists (new_Memory None), semantic_page_of_two, alice_memories, "alice", "semantic".
    exists {| mem_id := "m3"; mem_user_id := Some "alice"; mem_content := "likes python";
              mem_primary_sector := "semantic" |}.
    repeat split; try reflexivity.
    + vm_compute. lia.
    + right. right. left. reflexivity.
  - intros this opts memories s Hu Hs. unfold Memory_list. now rewrite Hu, Hs.
Qed.

Lemma list_semantic_page_of_alice :
  Memory_list (new_Memory None) semantic_page_of_two alice_memories = [].
Proof.
  destruct list_pages_before_sector_filter as [H _].
  rewrite (H (new_Memory None) semantic_page_of_two alice_memories "alice" "semantic"
             eq_refl eq_refl).
  reflexivity.
Defined.

(** * Further properties of the temporal queries *)

Lemma not_after_confidence (a b : fact_row) :
  not_after confidence_desc a b = true <-> (row_confidence b <= row_confidence a)%Q.
Proof.
  unfold not_after, confidence_desc.
  destruct (Qcompare_spec (row_confidence b) (row_confidence a)) as [He|Hl|Hg]; split;
    intros H; try reflexivity; try discriminate.
  - rewrite He. apply Qle_refl.
  - now apply Qlt_le_weak.
  - exfalso. apply (Qlt_irrefl (row_confidence a)). eapply Qlt_le_trans; eassumption.
Qed.

Lemma confidence_linear : linear confidence_desc.
Proof.
  split.
  - intros a b H. apply not_true_iff_false in H. rewrite not_after_confidence in *.
    destruct (Qlt_le_dec (row_confidence a) (row_confidence b)) as [Hl|Hle].
    + now apply Qlt_le_weak.
    + contradiction.
  - intros a b c. rewrite !not_after_confidence. intros H1 H2.
    eapply Qle_trans; eassumption.
Qed.

Lemma conflict_where (s p : string) (t : Z) (u : option string) (r : fact_row) :
  join_and (push_if u user_id_eq [subject_eq s; predicate_eq p; valid_window t t]) r
  = true
  <-> row_subject r = s /\ row_predicate r = p /\ active_at t r /\
      in_scope u (row_user_id r).
Proof.
  rewrite join_and_push_if, andb_true_iff, pushed_user.
  unfold join_and, subject_eq, predicate_eq. simpl.
  rewrite andb_true_r, !andb_true_iff, !String.eqb_eq, valid_window_active. tauto.
Qed.

(** X1: [find_conflicting_facts] returns exactly the images of the stored
    facts with the given subject and predicate (compared as they are: an empty
    string is no wildcard here) that are active at the instant and in the user
    scope, the more confident first. *)
Theorem find_conflicting_facts_returns (now : Z) (s p : string) (at_ : option Z)
    (u : option string) (db : list fact_row) :
  (forall g,
      In g (find_conflicting_facts now s p at_ u db) <->
      exists F, (In F db /\ row_subject F = s /\ row_predicate F = p /\
                 active_at (timestamp_of now at_) F /\ in_scope u (row_user_id F)) /\
                g = row_to_fact F) /\
  StronglySorted (fun f g => (confidence g <= confidence f)%Q)
    (find_conflicting_facts now s p at_ u db).
Proof.
  unfold find_conflicting_facts. split.
  - intros g. apply In_map_row_to_fact. intros r.
    rewrite In_all_async, conflict_where. tauto.
  - unfold all_async.
    eapply map_sorted; [|apply order_by_sorted, confidence_linear].
    intros a b H. now apply not_after_confidence.
Qed.

(** X2: for a non-empty subject and predicate, conflict detection sees the
    facts the as-of query returns for that subject and predicate at the same
    instant and user scope with the confidence threshold 0: two or more
    results of the one are two or more results of the other. *)
Theorem conflicts_are_as_of_results (now : Z) (s p : string) (at_ : option Z)
    (u : option string) (db : list fact_row) (g : TemporalFact) :
  s <> "" -> p <> "" ->
  (In g (find_conflicting_facts now s p at_ u db) <->
   In g (query_facts_at_time now (Some s) (Some p) None at_ (Some 0%Q) u db)).
Proof.
  intros Hs Hp. unfold find_conflicting_facts, query_facts_at_time.
  rewrite !in_map_iff. split; intros (r & <- & Hr); exists r; (split; [reflexivity|]);
    rewrite In_all_async in *; destruct Hr as [Hdb Hr]; (split; [assumption|]).
  - apply conflict_where in Hr as (H1 & H2 & H3 & H4).
    apply at_time_where. unfold pattern_matches, confident.
    split; [exact H3|]. split; [exact H4|]. split; [now right|]. split; [now right|].
    split; [exact I|]. intros H. now apply Qlt_irrefl in H.
  - apply at_time_where in Hr as (H3 & H4 & H1 & H2 & _).
    apply conflict_where. unfold pattern_matches in *.
    destruct H1 as [H1|H1]; [contradiction|]. destruct H2 as [H2|H2]; [contradiction|].
    auto.
Qed.

Lemma conflicts_are_as_of_results_s2 :
  In (row_to_fact globex)
    (query_facts_at_time 0 (Some "alice") (Some "works_at") None (Some 1717200000000)
       (Some 0%Q) (Some "alice") s2_table).
Proof.
  apply (conflicts_are_as_of_results 0 "alice" "works_at" (Some 1717200000000)
           (Some "alice") s2_table); [discriminate | discriminate |].
  vm_compute. right. left. reflexivity.
Defined.

Lemma by_subject_historical_where (s : string) (u : option string) (r : fact_row) :
  join_and (push_if u user_id_eq [subject_eq s]) r = true
  <-> row_subject r = s /\ in_scope u (row_user_id r).
Proof.
  rewrite join_and_push_if, andb_true_iff, pushed_user, join_and_single.
  unfold subject_eq. now rewrite String.eqb_eq.
Qed.

Lemma by_subject_current_where (s : string) (t : Z) (u : option string) (r : fact_row) :
  join_and (push_if u user_id_eq [subject_eq s; valid_window t t]) r = true
  <-> row_subject r = s /\ active_at t r /\ in_scope u (row_user_id r).
Proof.
  rewrite join_and_push_if, andb_true_iff, pushed_user.
  unfold join_and, subject_eq. simpl.
  rewrite andb_true_r, andb_true_iff, String.eqb_eq, valid_window_active. tauto.
Qed.

(** X3: with [include_historical], [get_facts_by_subject] returns every
    stored fact of the subject in the user scope, whatever its validity; what
    it returns without the flag (the facts active at the instant) is among
    them. *)
Theorem facts_by_subject_current_among_historical (now : Z) (s : string)
    (at_ : option Z) (u : option string) (db : list fact_row) :
  (forall g,
      In g (get_facts_by_subject now s at_ true u db) <->
      exists F, (In F db /\ row_subject F = s /\ in_scope u (row_user_id F)) /\
                g = row_to_fact F) /\
  (forall g,
      In g (get_facts_by_subject now s at_ false u db) <->
      exists F, (In F db /\ row_subject F = s /\
                 active_at (timestamp_of now at_) F /\ in_scope u (row_user_id F)) /\
                g = row_to_fact F) /\
  incl (get_facts_by_subject now s at_ false u db)
       (get_facts_by_subject now s at_ true u db).
Proof.
  assert (Hh : forall g,
      In g (get_facts_by_subject now s at_ true u db) <->
      exists F, (In F db /\ row_subject F = s /\ in_scope u (row_user_id F)) /\
                g = row_to_fact F).
  { intros g. unfold get_facts_by_subject. apply In_map_row_to_fact. intros r.
    rewrite In_all_async, by_subject_historical_where. tauto. }
  assert (Hc : forall g,
      In g (get_facts_by_subject now s at_ false u db) <->
      exists F, (In F db /\ row_subject F = s /\
                 active_at (timestamp_of now at_) F /\ in_scope u (row_user_id F)) /\
                g = row_to_fact F).
  { intros g. unfold get_facts_by_subject. apply In_map_row_to_fact. intros r.
    rewrite In_all_async, by_subject_current_where. tauto. }
  split; [exact Hh|]. split; [exact Hc|].
  intros g Hg. apply Hh. apply Hc in Hg as (F & (H1 & H2 & _ & H4) & ->).
  exists F. tauto.
Qed.

(** X4: the as-of query returns its facts in order of confidence descending,
    then valid_from descending. *)
Theorem query_facts_at_time_ordered (now : Z) (subject predicate object : option string)
    (at_ : option Z) (min_confidence : option Q) (user_id : option string)
    (db : list fact_row) :
  StronglySorted ranked_before
    (query_facts_at_time now subject predicate object at_ min_confidence user_id db).
Proof.
  unfold query_facts_at_time, all_async.
  eapply map_sorted; [|apply order_by_sorted, rank_linear].
  intros a b H. now apply not_after_rank.
Qed.

(** X5: the range query returns its facts in order of valid_from
    descending. *)
Theorem query_facts_in_range_ordered (subject predicate : option string)
    (from to : option Z) (min_confidence : option Q) (user_id : option string)
    (db : list fact_row) :
  StronglySorted (fun f g => valid_from g <= valid_from f)
    (query_facts_in_range subject predicate from to min_confidence user_id db).
Proof.
  unfold query_facts_in_range, all_async.
  eapply map_sorted; [|apply order_by_sorted, valid_from_linear].
  intros a b H. now apply not_after_valid_from.
Qed.

(** X6: the fact [get_current_fact] returns for a subject and predicate is
    among the facts the as-of query returns for them (threshold 0, same user
    scope) at every instant from its valid_from on. *)
Theorem current_fact_in_as_of (now : Z) (s p : string) (u : option string)
    (db : list fact_row) (g : TemporalFact) (t : Z) :
  get_current_fact s p u db = Some g ->
  valid_from g <= t ->
  In g (query_facts_at_time now (Some s) (Some p) None (Some t) (Some 0%Q) u db).
Proof.
  unfold get_current_fact, get_async. intros Hg Ht.
  destruct (List.hd_error _) as [r|] eqn:E; [|discriminate].
  injection Hg as <-. apply hd_error_In, In_all_async_limit in E as [Hdb Hr].
  apply current_where in Hr as (H1 & H2 & H3 & H4).
  unfold query_facts_at_time. apply in_map_iff. exists r. split; [reflexivity|].
  apply In_all_async. split; [assumption|]. apply at_time_where.
  unfold active_at, pattern_matches, confident. rewrite H3. simpl in Ht.
  split; [split; [exact Ht | exact I]|]. split; [exact H4|].
  split; [now right|]. split; [now right|]. split; [exact I|].
  intros H. now apply Qlt_irrefl in H.
Qed.

Lemma current_fact_in_as_of_s2 :
  In (row_to_fact globex)
    (query_facts_at_time 0 (Some "alice") (Some "works_at") None (Some 1800000000000)
       (Some 0%Q) (Some "alice") s2_table).
Proof.
  apply (current_fact_in_as_of 0 "alice" "works_at" (Some "alice") s2_table).
  - vm_compute. reflexivity.
  - simpl. lia.
Defined.

Lemma search_like_where (ceq : ascii -> ascii -> bool) (f : field) (pat : string)
    (t : Z) (u : option string) (r : fact_row) :
  join_and (push_if u user_id_eq [field_like ceq f pat; valid_window t t]) r = true
  <-> like_match ceq pat (column f r) = true /\ active_at t r /\
      in_scope u (row_user_id r).
Proof.
  rewrite join_and_push_if, andb_true_iff, pushed_user.
  unfold join_and, field_like. simpl.
  rewrite andb_true_r, andb_true_iff, valid_window_active. tauto.
Qed.

(** X7: whatever the pattern and the field, every fact [search_facts]
    returns is a fact the as-of query returns at the same instant and user
    scope when given no pattern and the threshold 0, and at most 100 facts are
    returned. *)
Theorem search_results_are_as_of_results (ceq : ascii -> ascii -> bool) (now : Z)
    (pattern : string) (f : option field) (at_ : option Z) (u : option string)
    (db : list fact_row) :
  incl (search_facts ceq now pattern f at_ u db)
       (query_facts_at_time now None None None at_ (Some 0%Q) u db) /\
  (length (search_facts ceq now pattern f at_ u db) <= 100)%nat.
Proof.
  split.
  - intros g. unfold search_facts, query_facts_at_time. rewrite !in_map_iff.
    intros (r & <- & Hr). exists r. split; [reflexivity|].
    apply In_all_async_limit in Hr as [Hdb Hr].
    apply search_like_where in Hr as (_ & H2 & H3).
    apply In_all_async. split; [assumption|]. apply at_time_where.
    unfold pattern_matches, confident.
    split; [exact H2|]. split; [exact H3|]. split; [exact I|]. split; [exact I|].
    split; [exact I|]. intros H. now apply Qlt_irrefl in H.
  - unfold search_facts, all_async. rewrite length_map. apply firstn_le_length.
Qed.

(** X8: the empty pattern matches every fact: [search_facts] then returns
    the first 100, in its order, of all facts active at the instant and in the
    user scope. *)
Theorem search_empty_pattern (ceq : ascii -> ascii -> bool) (now : Z)
    (f : option field) (at_ : option Z) (u : option string) (db : list fact_row) :
  exists rows,
    search_facts ceq now "" f at_ u db = map row_to_fact (firstn 100 rows) /\
    StronglySorted ranked_before (map row_to_fact rows) /\
    forall r, In r rows <->
              In r db /\ active_at (timestamp_of now at_) r /\
              in_scope u (row_user_id r).
Proof.
  unfold search_facts, all_async.
  set (conds := push_if u user_id_eq _).
  exists (order_by (then_by confidence_desc valid_from_desc)
            (List.filter (join_and conds) db)).
  split; [reflexivity|]. split.
  - eapply map_sorted; [|apply order_by_sorted, rank_linear].
    intros a b H. now apply not_after_rank.
  - intros r. rewrite In_order_by, filter_In. unfold conds.
    rewrite search_like_where.
    assert (Hl : like_match ceq ("%" +:+ "" +:+ "%") (column (field_of f) r) = true).
    { rewrite like_free_substring by reflexivity. destruct (column (field_of f) r); reflexivity. }
    rewrite Hl. tauto.
Qed.

(** ** Related facts *)

Lemma insert_sorted_Permutation {A} (na : A -> A -> bool) (x : A) (l : list A) :
  Permutation (insert_sorted na x l) (x :: l).
Proof.
  induction l as [|y l IH]; simpl; [reflexivity|].
  destruct (na x y); [reflexivity|]. rewrite IH. apply perm_swap.
Qed.

Lemma sort_by_Permutation {A} (na : A -> A -> bool) (l : list A) :
  Permutation (sort_by na l) l.
Proof.
  induction l as [|x l IH]; simpl; [reflexivity|].
  rewrite insert_sorted_Permutation. now constructor.
Qed.

Lemma sort_by_sorted {A} (na : A -> A -> bool) (l : list A) :
  (forall a b, na a b = false -> na b a = true) ->
  (forall a b c, na a b = true -> na b c = true -> na a c = true) ->
  StronglySorted (fun a b => na a b = true) (sort_by na l).
Proof.
  intros Htot Htr. induction l as [|x l IH]; simpl; [constructor|].
  induction IH as [|y rest Hs IHs Hall]; simpl.
  - repeat constructor.
  - destruct (na x y) eqn:E.
    + constructor; [now constructor|]. constructor; [exact E|].
      eapply List.Forall_impl; [|exact Hall]. intros z Hz. eapply Htr; eassumption.
    + constructor; [exact IHs|]. apply List.Forall_forall. intros z Hz.
      apply (Permutation_in _ (insert_sorted_Permutation na x rest)) in Hz.
      destruct Hz as [<-|Hz]; [now apply Htot|].
      rewrite List.Forall_forall in Hall. now apply Hall.
Qed.

(** The rank of related facts: heavier edges first, more confident facts
    first among edges of equal weight. *)
Definition related_before (a b : related_fact) : Prop :=
  (rf_weight b < rf_weight a)%Q \/
  ((rf_weight b == rf_weight a)%Q /\
   (confidence (rf_fact b) <= confidence (rf_fact a))%Q).

Definition related_image (ef : edge_row * fact_row) : related_fact :=
  {| rf_fact := row_to_fact (snd ef);
     rf_relation := edge_relation_type (fst ef);
     rf_weight := edge_weight (fst ef) |}.

Lemma related_not_after_rank (a b : edge_row * fact_row) :
  related_not_after a b = true <-> related_before (related_image a) (related_image b).
Proof.
  unfold related_not_after, related_order, related_before. simpl.
  destruct (Qcompare_spec (edge_weight (fst b)) (edge_weight (fst a))) as [He|Hl|Hg].
  - destruct (Qcompare_spec (row_confidence (snd b)) (row_confidence (snd a)))
      as [Hc|Hc|Hc]; split; intros H; try reflexivity; try discriminate.
    + right. split; [assumption|]. rewrite Hc. apply Qle_refl.
    + right. split; [assumption|]. now apply Qlt_le_weak.
    + exfalso. destruct H as [H|[_ H]].
      * rewrite He in H. now apply Qlt_irrefl in H.
      * apply (Qlt_irrefl (row_confidence (snd a))). eapply Qlt_le_trans; eassumption.
  - split; auto.
  - split; [discriminate|]. intros [H|[H _]].
    + exfalso. apply (Qlt_irrefl (edge_weight (fst a))). eapply Qlt_trans; eassumption.
    + rewrite H in Hg. now apply Qlt_irrefl in Hg.
Qed.

Lemma related_total (a b : edge_row * fact_row) :
  related_not_after a b = false -> related_not_after b a = true.
Proof.
  intros H. apply not_true_iff_false in H. rewrite related_not_after_rank in *.
  unfold related_before in *. simpl in *.
  destruct (Qlt_le_dec (edge_weight (fst a)) (edge_weight (fst b))) as [Hl|Hle];
    [now left|].
  destruct (Qlt_le_dec (edge_weight (fst b)) (edge_weight (fst a))) as [Hl'|Hle'].
  - exfalso. apply H. now left.
  - right. split; [now apply Qle_antisym|].
    destruct (Qlt_le_dec (row_confidence (snd a)) (row_confidence (snd b)))
      as [Hc|Hc]; [now apply Qlt_le_weak|].
    exfalso. apply H. right. split; [now apply Qle_antisym | assumption].
Qed.

Lemma related_trans (a b c : edge_row * fact_row) :
  related_not_after a b = true -> related_not_after b c = true ->
  related_not_after a c = true.
Proof.
  rewrite !related_not_after_rank. unfold related_before. simpl.
  intros [H1|[H1 H1']] [H2|[H2 H2']].
  - left. eapply Qlt_trans; eassumption.
  - left. now rewrite H2.
  - left. now rewrite <- H1.
  - right. split; [now rewrite H2 | eapply Qle_trans; eassumption].
Qed.

Lemma In_join_edges (edges : list edge_row) (db : list fact_row)
    (e : edge_row) (f : fact_row) :
  In (e, f) (join_edges edges db) <->
  In e edges /\ In f db /\ edge_target_id e = row_id f.
Proof.
  unfold join_edges. rewrite in_flat_map. split.
  - intros (e' & He & Hf). apply in_map_iff in Hf as (f' & [= -> ->] & Hf).
    apply filter_In in Hf as [Hf Hid]. apply String.eqb_eq in Hid. auto.
  - intros (He & Hf & Hid). exists e. split; [assumption|].
    apply in_map_iff. exists f. split; [reflexivity|].
    apply filter_In. split; [assumption|]. now apply String.eqb_eq.
Qed.

Lemma pushed_edge (x : option string) (c : string -> edge_condition)
    (conds : list edge_condition) (e : edge_row) :
  forallb (fun k => k e) (push_edge_if x c conds) =
  forallb (fun k => k e) conds && match provided x with Some v => c v e | None => true end.
Proof.
  unfold push_edge_if. destruct (provided x).
  - rewrite forallb_app. simpl. now rewrite andb_true_r.
  - now rewrite andb_true_r.
Qed.

Lemma pushed_edge_user (x : option string) (e : edge_row) :
  match provided x with Some v => edge_user_eq v e | None => true end = true
  <-> in_scope x (edge_user_id e).
Proof.
  unfold in_scope, edge_user_eq. destruct (provided x) as [v|] eqn:E.
  - apply provided_Some in E as [-> Hv]. destruct (edge_user_id e) as [w|].
    + rewrite String.eqb_eq. split; [intros ->; auto | intros [?|[= ->]]; [contradiction|reflexivity]].
    + split; [discriminate | intros [?|?]; [contradiction|discriminate]].
  - apply provided_None in E as [-> | ->]; intuition.
Qed.

(** An edge is active at [t]. *)
Definition edge_active_at (t : Z) (e : edge_row) : Prop :=
  edge_valid_from e <= t /\
  match edge_valid_to e with
  | Some vt => t <= vt
  | None => True
  end.

(** X9: [get_related_facts] returns, heavier edges first and more confident
    facts first among equal weights, exactly the entries (the fact, the edge's
    relation type and weight) of the pairs of an edge leaving [fact_id] and
    the fact it points to such that both are active at the instant, the edge
    has the relation type asked for (any, when none or an empty one is given)
    and, when a non-empty user id is given, both the edge and the fact belong
    to that user. *)
Theorem get_related_facts_returns (now : Z) (fact_id : string)
    (relation_type : option string) (at_ : option Z) (user_id : option string)
    (edges : list edge_row) (db : list fact_row) :
  (forall x,
      In x (get_related_facts now fact_id relation_type at_ user_id edges db) <->
      exists e f,
        (In e edges /\ In f db /\ edge_target_id e = row_id f /\
         edge_source_id e = fact_id /\
         edge_active_at (timestamp_of now at_) e /\
         pattern_matches relation_type (edge_relation_type e) /\
         in_scope user_id (edge_user_id e) /\
         active_at (timestamp_of now at_) f /\
         in_scope user_id (row_user_id f)) /\
        x = {| rf_fact := row_to_fact f; rf_relation := edge_relation_type e;
               rf_weight := edge_weight e |}) /\
  StronglySorted related_before
    (get_related_facts now fact_id relation_type at_ user_id edges db).
Proof.
  unfold get_related_facts. split.
  - intros x. rewrite in_map_iff. split.
    + intros ([e f] & <- & Hef).
      apply (Permutation_in _ (sort_by_Permutation _ _)) in Hef.
      apply filter_In in Hef as [Hj Hw]. apply In_join_edges in Hj as (He & Hf & Hid).
      simpl in Hw. rewrite !andb_true_iff, !pushed_edge in Hw. simpl in Hw.
      rewrite !andb_true_iff in Hw.
      destruct Hw as [[[Hs [[[Hwin _] Hrel] Hu]] Hfw] Hfu].
      exists e, f. split; [|reflexivity].
      apply String.eqb_eq in Hs. apply pushed_edge_user in Hu.
      apply pushed_user in Hfu. apply valid_window_active in Hfw.
      unfold edge_relation_eq in Hrel. apply pushed_pattern in Hrel.
      assert (Hea : edge_active_at (timestamp_of now at_) e).
      { unfold edge_active_at, edge_window in *.
        apply andb_true_iff in Hwin as [H1 H2]. apply Z.leb_le in H1.
        split; [assumption|]. destruct (edge_valid_to e); [now apply Z.geb_le|exact I]. }
      tauto.
    + intros (e & f & (He & Hf & Hid & Hs & Hea & Hrel & Hu & Hfa & Hfu) & ->).
      exists (e, f). split; [reflexivity|].
      apply (Permutation_in _ (Permutation_sym (sort_by_Permutation _ _))).
      apply filter_In. split; [now apply In_join_edges|].
      simpl. rewrite !andb_true_iff, !pushed_edge. simpl. rewrite !andb_true_iff.
      apply String.eqb_eq in Hs. apply pushed_edge_user in Hu.
      apply pushed_user in Hfu. apply valid_window_active in Hfa.
      apply (pushed_pattern relation_type) in Hrel.
      assert (Hwin : edge_window (timestamp_of now at_) (timestamp_of now at_) e = true).
      { unfold edge_active_at, edge_window in *. destruct Hea as [H1 H2].
        apply andb_true_iff. split; [now apply Z.leb_le|].
        destruct (edge_valid_to e); [now apply Z.geb_le|reflexivity]. }
      unfold edge_relation_eq. tauto.
  - eapply (map_sorted _ (fun a b => related_not_after a b = true)).
    + intros a b H. apply related_not_after_rank in H. exact H.
    + apply sort_by_sorted; [exact related_total | exact related_trans].
Qed.

(** * Further properties of the [Memory] class *)

(** ** The query methods *)

Lemma scoped_to_ext (u : string) (q q' : list fact_row -> list TemporalFact) :
  (forall db, q db = q' db) -> scoped_to u q' -> scoped_to u q.
Proof.
  intros He [H1 H2]. split.
  - intros db f. rewrite He. apply H1.
  - intros db1 db2 H. rewrite !He. now apply H2.
Qed.

Lemma provided_resolved (uid : option string) (u : string) :
  provided uid = Some u -> uid = Some u /\ u <> "".
Proof. apply provided_Some. Qed.

(** X10: when the user id given to a query method of [Memory], or else the
    default user of the instance, is a non-empty [u], then [queryFacts],
    [getCurrentFact], [getFactsBySubject], [queryFactsInRange] and
    [searchFacts] return only facts of [u] and return the same on any two
    tables that hold the same facts of [u]; so an instance bound to a user
    never shows another user's facts to a call that names no user. *)
Theorem memory_queries_scoped (this : Memory) (user_id : option string) (u : string) :
  provided (or_else user_id (default_user this)) = Some u ->
  (forall now s p o at_ mc,
      scoped_to u (queryFacts this now
                     {| tq_subject := s; tq_predicate := p; tq_object := o;
                        tq_at := at_; tq_min_confidence := mc;
                        tq_user_id := user_id |})) /\
  (forall s p,
      scoped_to u (fun db => option_list (getCurrentFact this s p user_id db))) /\
  (forall now s at_ historical,
      scoped_to u (getFactsBySubject this now s
                     {| sj_at := at_; sj_include_historical := historical;
                        sj_user_id := user_id |})) /\
  (forall s p from to mc,
      scoped_to u (queryFactsInRange this
                     {| rg_subject := s; rg_predicate := p; rg_from := from;
                        rg_to := to; rg_min_confidence := mc;
                        rg_user_id := user_id |})) /\
  (forall ceq now pattern f at_,
      scoped_to u (searchFacts ceq this now pattern f at_ user_id)).
Proof.
  intros Hu. apply provided_resolved in Hu as [Huid Hne]. repeat apply conj.
  - intros. eapply scoped_to_ext.
    + intros db. unfold queryFacts, query_facts_at_time. cbn [tq_user_id].
      rewrite Huid. reflexivity.
    + apply select_scoped. apply guards_push_confidence. do 3 apply guards_push_if.
      now apply guards_push_user.
  - intros s p. unfold getCurrentFact, get_current_fact, get_async. rewrite Huid.
    pose proof (guards_push_user u
                  [subject_eq s; predicate_eq p; valid_to_is_null] Hne) as Hg.
    split.
    + intros db f.
      destruct (List.hd_error _) as [r|] eqn:E; simpl; [|tauto].
      intros [<-|[]]. apply hd_error_In, In_all_async_limit in E as [_ E].
      simpl. now apply Hg.
    + intros db1 db2 H.
      now rewrite (all_async_owned u _ (Some valid_from_desc) (Some 1%nat) db1 db2 Hg H).
  - intros now s at_ historical.
    destruct (match historical with Some b => b | None => false end) eqn:Eh.
    + eapply scoped_to_ext.
      * intros db. unfold getFactsBySubject, get_facts_by_subject.
        cbn [sj_user_id sj_include_historical sj_at]. rewrite Huid, Eh. reflexivity.
      * apply select_scoped. now apply guards_push_user.
    + eapply scoped_to_ext.
      * intros db. unfold getFactsBySubject, get_facts_by_subject.
        cbn [sj_user_id sj_include_historical sj_at]. rewrite Huid, Eh. reflexivity.
      * apply select_scoped. now apply guards_push_user.
  - intros. eapply scoped_to_ext.
    + intros db. unfold queryFactsInRange, query_facts_in_range. cbn [rg_user_id].
      rewrite Huid. reflexivity.
    + apply select_scoped. apply guards_push_confidence. do 2 apply guards_push_if.
      now apply guards_push_user.
  - intros. eapply scoped_to_ext.
    + intros db. unfold searchFacts, search_facts. rewrite Huid. reflexivity.
    + apply select_scoped. now apply guards_push_user.
Qed.

Lemma memory_queries_scoped_alice :
  queryFacts alice_memory 100
    {| tq_subject := None; tq_predicate := None; tq_object := None; tq_at := None;
       tq_min_confidence := None; tq_user_id := None |} [bob_acme; open_since_50]
  = queryFacts alice_memory 100
      {| tq_subject := None; tq_predicate := None; tq_object := None; tq_at := None;
         tq_min_confidence := None; tq_user_id := None |} [open_since_50].
Proof.
  destruct (memory_queries_scoped alice_memory None "alice" eq_refl) as (H & _).
  destruct (H 100 None None None None None) as [_ H'].
  apply H'. reflexivity.
Defined.

(** X11: called without [min_confidence], [queryFacts] applies no confidence
    threshold (its default is 0, not the 0.1 of [query_facts_at_time]): it
    returns every stored fact active at the instant that matches the patterns
    and the resolved user scope, whatever its confidence. *)
Theorem queryFacts_without_threshold (this : Memory) (now : Z)
    (opts : TemporalQueryOptions) (db : list fact_row) (g : TemporalFact) :
  tq_min_confidence opts = None ->
  (In g (queryFacts this now opts db) <->
   exists F, (In F db /\
              active_at (timestamp_of now (tq_at opts)) F /\
              in_scope (or_else (tq_user_id opts) (default_user this)) (row_user_id F) /\
              pattern_matches (tq_subject opts) (row_subject F) /\
              pattern_matches (tq_predicate opts) (row_predicate F) /\
              pattern_matches (tq_object opts) (row_object F)) /\
             g = row_to_fact F).
Proof.
  intros Hmc. unfold queryFacts, query_facts_at_time. rewrite Hmc.
  apply In_map_row_to_fact. intros r. rewrite In_all_async, at_time_where.
  unfold confident. simpl.
  assert (Hz : ((0 < 0)%Q -> (0 <= row_confidence r)%Q) <-> True).
  { split; [auto|]. intros _ H. now apply Qlt_irrefl in H. }
  rewrite Hz. tauto.
Qed.

(** A fact of confidence 0.05. *)
Definition faint_fact : fact_row :=
  mk_row "f9" None "sky" "colour" "green" 10 None (5 # 100)%Q 10 None.

Lemma queryFacts_returns_faint_fact :
  In (row_to_fact faint_fact)
    (queryFacts (new_Memory None) 100
       {| tq_subject := Some "sky"; tq_predicate := None; tq_object := None;
          tq_at := None; tq_min_confidence := None; tq_user_id := None |}
       [faint_fact]).
Proof.
  apply queryFacts_without_threshold; [reflexivity|].
  exists faint_fact. split; [|reflexivity].
  split; [now left|]. unfold active_at, in_scope, pattern_matches; simpl.
  repeat split; auto. lia.
Defined.

(** ** [recall] *)

Lemma copy_matches (ms : list hsg_match) :
  map (fun m => {| m_id := m_id m; m_score := m_score m; m_content := m_content m;
                   m_primary_sector := m_primary_sector m; m_sectors := m_sectors m;
                   m_salience := m_salience m; m_last_seen_at := m_last_seen_at m;
                   m_path := m_path m |}) ms = ms.
Proof.
  induction ms as [|m ms IH]; simpl; [reflexivity|]. rewrite IH. now destruct m.
Qed.

(** The options [queryFacts] would be called with for the fact pattern of a
    [recall]. *)
Definition recall_query_options (opts : RecallOptions) : TemporalQueryOptions :=
  {| tq_subject := pattern_field (ro_fact_pattern opts) fp_subject;
     tq_predicate := pattern_field (ro_fact_pattern opts) fp_predicate;
     tq_object := pattern_field (ro_fact_pattern opts) fp_object;
     tq_at := ro_at opts;
     tq_min_confidence := None;
     tq_user_id := ro_user_id opts |}.

(** The filters [recall] hands to [hsg_query]. *)
Definition recall_filters (this : Memory) (opts : RecallOptions) : hsg_filters :=
  {| flt_sectors := match provided (ro_sector opts) with
                    | Some s => Some [s]
                    | None => None
                    end;
     flt_minSalience := ro_min_salience opts;
     flt_user_id := provided (or_else (ro_user_id opts) (default_user this)) |}.

(** X12: [recall] with type 'factual' does not query the HSG and returns as
    its only block what [queryFacts] returns for the fact pattern, instant and
    user; with type 'contextual' it returns only the matches of [hsg_query]
    (asked for [k], or 8, results with the sector, salience and user filters);
    with type 'unified', which is the default, it returns both blocks; when
    [hsg_query] throws, [recall] throws the same error. *)
Theorem recall_blocks (world : Type)
    (hsg_query : string -> nat -> hsg_filters -> action world (list hsg_match))
    (this : Memory) (now : Z) (query : string) (opts : RecallOptions)
    (db : list fact_row) (w : world) :
  let facts := queryFacts this now (recall_query_options opts) db in
  let asked := hsg_query query (number_or (ro_k opts) 8) (recall_filters this opts) w in
  (ro_type opts = Some recall_factual ->
   recall hsg_query this now query opts db w
   = (inr {| rr_contextual := None; rr_factual := Some facts |}, w)) /\
  (ro_type opts = Some recall_contextual ->
   recall hsg_query this now query opts db w
   = match asked with
     | (inr matches, w') =>
         (inr {| rr_contextual := Some matches; rr_factual := None |}, w')
     | (inl message, w') => (inl message, w')
     end) /\
  (ro_type opts = Some recall_unified \/ ro_type opts = None ->
   recall hsg_query this now query opts db w
   = match asked with
     | (inr matches, w') =>
         (inr {| rr_contextual := Some matches; rr_factual := Some facts |}, w')
     | (inl message, w') => (inl message, w')
     end).
Proof.
  intros facts asked. subst facts asked.
  unfold recall, recall_contextual_block, recall_factual_block, queryFacts,
    recall_query_options, recall_filters, confidence_or_zero, bind, ret. simpl.
  split; [|split].
  - intros ->. reflexivity.
  - intros ->. destruct (hsg_query _ _ _ w) as [[message|matches] w']; [reflexivity|].
    now rewrite copy_matches.
  - intros [-> | ->]; destruct (hsg_query _ _ _ w) as [[message|matches] w'];
      try reflexivity; now rewrite copy_matches.
Qed.

(** ** [store]: validation, routing and failures *)

(** X13: [store] checks its arguments before it writes anything: with type
    'factual' and a facts array that is missing or empty it throws "Facts
    array is required when type is 'factual'", and with type 'contextual'
    (also when the type is omitted) or 'both' and an empty content it throws
    "Content is required when type is '<type>'"; in both cases neither the HSG
    nor the temporal graph is touched. *)
Theorem store_validates_first (world : Type)
    (add_hsg_memory : string -> string -> metadata_map -> option string ->
                      action world hsg_entry)
    (batch_insert_facts : list fact_insert -> action world (list string))
    (stringify : list string -> string)
    (this : Memory) (now : Z) (content : string) (opts : StoreOptions) (w : world) :
  (so_type opts = Some factual ->
   so_facts opts = None \/ so_facts opts = Some [] ->
   store add_hsg_memory batch_insert_facts stringify this now content opts w
   = (inl "Facts array is required when type is 'factual'", w)) /\
  (so_type opts = None \/ so_type opts = Some contextual ->
   store add_hsg_memory batch_insert_facts stringify this now "" opts w
   = (inl "Content is required when type is 'contextual'", w)) /\
  (so_type opts = Some both ->
   store add_hsg_memory batch_insert_facts stringify this now "" opts w
   = (inl "Content is required when type is 'both'", w)).
Proof.
  unfold store, throw_if, bind, throw, ret. split; [|split].
  - intros -> [-> | ->]; reflexivity.
  - intros [-> | ->]; reflexivity.
  - intros ->. reflexivity.
Qed.

(** X14: with type 'contextual' (also when the type is omitted), and with
    type 'both' when no facts array is given, [store] only inserts the HSG
    memory: the result has no temporal block and the temporal graph is not
    written, whatever facts the options carry. *)
Theorem store_contextual_only (world : Type)
    (add_hsg_memory : string -> string -> metadata_map -> option string ->
                      action world hsg_entry)
    (batch_insert_facts : list fact_insert -> action world (list string))
    (stringify : list string -> string)
    (this : Memory) (now : Z) (content : string) (opts : StoreOptions) (w : world) :
  content <> "" ->
  so_type opts = None \/ so_type opts = Some contextual \/
  (so_type opts = Some both /\ so_facts opts = None) ->
  store add_hsg_memory batch_insert_facts stringify this now content opts w
  = match add_hsg_memory content
            (stringify match so_tags opts with Some t => t | None => [] end)
            (spread (so_metadata opts))
            (or_else (so_user_id opts) (default_user this)) w with
    | (inr h, w') => (inr {| hsg := Some h; temporal := None |}, w')
    | (inl message, w') => (inl message, w')
    end.
Proof.
  intros Hc Ht.
  assert (Hc' : String.eqb content "" = false) by now apply String.eqb_neq.
  unfold store, throw_if, store_hsg, store_temporal, truthy, bind, throw, ret.
  rewrite Hc'. destruct Ht as [-> | [-> | [-> Hf]]]; cbn [andb negb];
    try rewrite Hf;
    destruct (add_hsg_memory _ _ _ _ w) as [[message|[hid hp hs]] w']; reflexivity.
Qed.

Lemma store_contextual_only_john :
  store journal_add_hsg journal_batch_insert (fun _ => "[tags]") (new_Memory None) 100
    "John loves TypeScript" (john_opts contextual) []
  = (inr {| hsg := Some {| hsg_id := "mem-1"; hsg_primary_sector := "semantic";
                           hsg_sectors := ["semantic"] |};
            temporal := None |},
     ["add_hsg_memory John loves TypeScript"]).
Proof.
  rewrite (store_contextual_only (list string) journal_add_hsg journal_batch_insert
             (fun _ => "[tags]") (new_Memory None) 100 "John loves TypeScript"
             (john_opts contextual) []).
  - reflexivity.
  - discriminate.
  - right. left. reflexivity.
Defined.

(** X15: [store] with type 'both' is not atomic across the two systems: when
    the HSG insert throws, the error is thrown on and no fact is inserted;
    when the HSG insert succeeds and the batch insert of the facts throws, the
    error is thrown on while the memory just stored stays in the HSG. *)
Theorem store_both_failures (world : Type)
    (add_hsg_memory : string -> string -> metadata_map -> option string ->
                      action world hsg_entry)
    (batch_insert_facts : list fact_insert -> action world (list string))
    (stringify : list string -> string)
    (this : Memory) (now : Z) (content : string) (opts : StoreOptions)
    (facts : list fact_input) (w : world) :
  so_type opts = Some both -> content <> "" -> so_facts opts = Some facts ->
  let uid := or_else (so_user_id opts) (default_user this) in
  let tags := match so_tags opts with Some t => t | None => [] end in
  let meta := spread (so_metadata opts) in
  (forall message w1,
      add_hsg_memory content (stringify tags) meta uid w = (inl message, w1) ->
      store add_hsg_memory batch_insert_facts stringify this now content opts w
      = (inl message, w1)) /\
  (forall h w1 message w2,
      add_hsg_memory content (stringify tags) meta uid w = (inr h, w1) ->
      batch_insert_facts
        (facts_to_insert now (link_meta both (Some h) meta) uid facts) w1
      = (inl message, w2) ->
      store add_hsg_memory batch_insert_facts stringify this now content opts w
      = (inl message, w2)).
Proof.
  intros Ht Hc Hf uid tags meta. subst uid tags meta.
  assert (Hc' : String.eqb content "" = false) by now apply String.eqb_neq.
  unfold store, throw_if, store_hsg, store_temporal, truthy, bind, throw, ret.
  rewrite Ht, Hc', Hf. cbn [andb negb]. split.
  - intros message w1 ->. reflexivity.
  - intros [hid hp hs] w1 message w2 -> Hb. cbn [hsg_id hsg_primary_sector hsg_sectors].
    unfold link_meta, truthy in *. cbn [hsg_id] in *. now rewrite Hb.
Qed.

(** A batch insert that always fails. *)
Definition failing_batch_insert (facts : list fact_insert)
    : action (list string) (list string) := fun w =>
  (inl "database is locked", w).

Lemma store_both_failures_john :
  store journal_add_hsg failing_batch_insert (fun _ => "[tags]") (new_Memory None) 100
    "John started at Acme Corp" (john_opts both) []
  = (inl "database is locked", ["add_hsg_memory John started at Acme Corp"]).
Proof.
  destruct (store_both_failures (list string) journal_add_hsg failing_batch_insert
              (fun _ => "[tags]") (new_Memory None) 100 "John started at Acme Corp"
              (john_opts both) john_facts [] eq_refl) as [_ H];
    [discriminate | reflexivity |].
  eapply H; reflexivity.
Defined.

(** ** [Memory.list]: what a page holds *)

Lemma In_skipn_rows {A} (n : nat) (l : list A) (x : A) : In x (skipn n l) -> In x l.
Proof.
  revert l. induction n as [|n IH]; intros [|y l]; simpl; try tauto.
  intros H. right. now apply IH.
Qed.

Lemma In_page {A} (limit offset : nat) (rows : list A) (x : A) :
  In x (page limit offset rows) -> In x rows.
Proof. unfold page. intros H. eapply In_skipn_rows, In_firstn, H. Qed.

Lemma length_page {A} (limit offset : nat) (rows : list A) :
  (length (page limit offset rows) <= limit)%nat.
Proof. unfold page. apply firstn_le_length. Qed.

Lemma length_filter_le {A} (f : A -> bool) (l : list A) :
  (length (List.filter f l) <= length l)%nat.
Proof.
  induction l as [|x l IH]; simpl; [lia|]. destruct (f x); simpl; lia.
Qed.

(** X16: whatever the options, [Memory.list] returns rows of the table, at
    most [limit] of them, where a limit that is omitted or 0 counts as 10;
    when a non-empty user id is given (or the instance has a default user)
    every row returned belongs to that user, and when a non-empty sector is
    given every row returned has it as its primary sector. *)
Theorem list_rows_within_bounds (this : Memory) (opts : ListOptions)
    (memories : list mem_row) :
  (length (Memory_list this opts memories) <= number_or (lo_limit opts) 10)%nat /\
  (lo_limit opts = None \/ lo_limit opts = Some 0%nat ->
   (length (Memory_list this opts memories) <= 10)%nat) /\
  forall row, In row (Memory_list this opts memories) ->
    In row memories /\
    (forall u, provided (or_else (lo_user_id opts) (default_user this)) = Some u ->
               mem_user_id row = Some u) /\
    (forall s, provided (lo_sector opts) = Some s -> mem_primary_sector row = s).
Proof.
  assert (Hlen : (length (Memory_list this opts memories)
                  <= number_or (lo_limit opts) 10)%nat).
  { unfold Memory_list, all_mem_by_user, all_mem_by_sector, all_mem.
    destruct (provided (or_else _ _)), (provided (lo_sector opts));
      try apply length_page.
    etransitivity; [apply length_filter_le | apply length_page]. }
  split; [exact Hlen|]. split.
  - intros [H|H]; rewrite H in Hlen; exact Hlen.
  - intros row. unfold Memory_list, all_mem_by_user, all_mem_by_sector, all_mem.
    destruct (provided (or_else _ _)) as [u|], (provided (lo_sector opts)) as [s|];
      intros Hrow.
    + apply filter_In in Hrow as [Hrow Hs]. apply In_page, filter_In in Hrow as [Hm Hu].
      split; [assumption|]. split.
      * intros u' [= <-]. destruct (mem_user_id row) as [v|]; [|discriminate].
        apply String.eqb_eq in Hu. now subst.
      * intros s' [= <-]. now apply String.eqb_eq in Hs.
    + apply In_page, filter_In in Hrow as [Hm Hu].
      split; [assumption|]. split; [|discriminate].
      intros u' [= <-]. destruct (mem_user_id row) as [v|]; [|discriminate].
      apply String.eqb_eq in Hu. now subst.
    + apply In_page, filter_In in Hrow as [Hm Hs].
      split; [assumption|]. split; [discriminate|].
      intros s' [= <-]. now apply String.eqb_eq in Hs.
    + apply In_page in Hrow. split; [assumption|]. split; discriminate.
Qed.

(** ** [addFacts]: the user of each fact *)

(** X17: [addFacts] hands [batch_insert_facts] one fact per given fact;
    when the user id of the call, or else the default user of the instance, is
    a non-empty [u], every fact handed over carries a non-empty user id: its
    own where it has one, [u] otherwise. *)
Theorem addFacts_assigns_users (world : Type)
    (batch_insert_fact_args : list fact_arg -> action world (list string))
    (this : Memory) (facts : list fact_arg) (user_id : option string) (u : string)
    (w : world) :
  provided (or_else user_id (default_user this)) = Some u ->
  exists inserted,
    addFacts batch_insert_fact_args this facts user_id w
    = batch_insert_fact_args inserted w /\
    length inserted = length facts /\
    forall f', In f' inserted ->
      exists f, In f facts /\
        fa_subject f' = fa_subject f /\ fa_predicate f' = fa_predicate f /\
        fa_object f' = fa_object f /\
        ((exists v, fa_user_id f = Some v /\ v <> "" /\ fa_user_id f' = Some v) \/
         (provided (fa_user_id f) = None /\ fa_user_id f' = Some u)).
Proof.
  intros Hu. apply provided_Some in Hu as [Huid Hne].
  exists (factsWithUser (or_else user_id (default_user this)) facts).
  split; [reflexivity|]. split; [apply length_map|].
  intros f' Hf'. unfold factsWithUser in Hf'. apply in_map_iff in Hf' as (f & <- & Hf).
  exists f. split; [assumption|]. simpl. repeat split.
  rewrite Huid. unfold or_else.
  destruct (provided (fa_user_id f)) as [v|] eqn:E.
  - left. exists v. apply provided_Some in E as [E Hv]. rewrite E.
    unfold truthy. rewrite (proj2 (String.eqb_neq v "") Hv). simpl. auto.
  - right. split; [reflexivity|]. unfold provided in E.
    destruct (truthy (fa_user_id f)) eqn:T; [|reflexivity].
    rewrite E in T. discriminate T.
Qed.

Definition john_args : list fact_arg :=
  [ {| fa_subject := "John"; fa_predicate := "works_at"; fa_object := "Acme";
       fa_confidence := None; fa_valid_from := None; fa_metadata := None;
       fa_user_id := None |} ].

Definition journal_batch_args (facts : list fact_arg)
    : action (list string) (list string) := fun w =>
  (inr (map fa_subject facts), w ++ map fa_subject facts).

Lemma addFacts_assigns_users_alice :
  exists inserted,
    addFacts journal_batch_args alice_memory john_args None []
    = journal_batch_args inserted [] /\
    length inserted = length john_args /\
    forall f', In f' inserted ->
      exists f, In f john_args /\
        fa_subject f' = fa_subject f /\ fa_predicate f' = fa_predicate f /\
        fa_object f' = fa_object f /\
        ((exists v, fa_user_id f = Some v /\ v <> "" /\ fa_user_id f' = Some v) \/
         (provided (fa_user_id f) = None /\ fa_user_id f' = Some "alice")).
Proof.
  apply (addFacts_assigns_users (list string) journal_batch_args
           alice_memory john_args None "alice" []).
  reflexivity.
Defined.

(** * Further properties of the pgvector store *)

(** The primary key of a row of [vectors]. *)
Definition key_of {vector} (row : vector_row vector) : string * string :=
  (v_id row, v_sector row).

(** The user a vector is stored under. *)
Definition owner_of (user_id : option string) : string :=
  match provided user_id with
  | Some u => u
  | None => "anonymous"
  end.

Lemma same_key_spec {vector} (i sector : string) (row : vector_row vector) :
  same_key i sector row = true <-> key_of row = (i, sector).
Proof.
  unfold same_key, key_of. rewrite andb_true_iff, !String.eqb_eq. split.
  - intros [-> ->]. reflexivity.
  - intros [= -> ->]. auto.
Qed.

Lemma same_key_other {vector} (i sector i' sector' : string) (row : vector_row vector) :
  (i', sector') <> (i, sector) -> same_key i sector row = true ->
  same_key i' sector' row = false.
Proof.
  intros Hne H. apply same_key_spec in H.
  destruct (same_key i' sector' row) eqn:E; [|reflexivity].
  apply same_key_spec in E. congruence.
Qed.

Lemma existsb_same_key {vector} (i sector : string) (table : list (vector_row vector)) :
  existsb (same_key i sector) table = true <-> In (i, sector) (map key_of table).
Proof.
  rewrite existsb_exists, in_map_iff. split; intros (row & H1 & H2).
  - exists row. split; [now apply same_key_spec | assumption].
  - exists row. split; [assumption | now apply same_key_spec].
Qed.

Lemma find_replaced_same {vector} (i sector : string)
    (excluded : vector_row vector) (table : list (vector_row vector)) :
  key_of excluded = (i, sector) ->
  List.find (same_key i sector)
    (map (fun row => if same_key i sector row then excluded else row) table)
  = match List.find (same_key i sector) table with
    | Some _ => Some excluded
    | None => None
    end.
Proof.
  intros Hk. apply same_key_spec in Hk.
  induction table as [|row table IH]; simpl; [reflexivity|].
  destruct (same_key i sector row) eqn:E.
  - now rewrite Hk.
  - now rewrite E.
Qed.

Lemma find_replaced_other {vector} (i sector i' sector' : string)
    (excluded : vector_row vector) (table : list (vector_row vector)) :
  key_of excluded = (i, sector) -> (i', sector') <> (i, sector) ->
  List.find (same_key i' sector')
    (map (fun row => if same_key i sector row then excluded else row) table)
  = List.find (same_key i' sector') table.
Proof.
  intros Hk Hne. apply same_key_spec in Hk.
  induction table as [|row table IH]; simpl; [reflexivity|].
  destruct (same_key i sector row) eqn:E.
  - rewrite (same_key_other i sector i' sector' excluded Hne Hk).
    now rewrite (same_key_other i sector i' sector' row Hne E).
  - now rewrite IH.
Qed.

Lemma find_none_existsb {A} (f : A -> bool) (l : list A) :
  existsb f l = false -> List.find f l = None.
Proof.
  induction l as [|x l IH]; simpl; [reflexivity|].
  destruct (f x); simpl; [discriminate | exact IH].
Qed.

Lemma find_some_existsb {A} (f : A -> bool) (l : list A) :
  existsb f l = true -> exists x, List.find f l = Some x.
Proof.
  induction l as [|x l IH]; simpl; [discriminate|].
  destruct (f x); simpl; [now exists x | exact IH].
Qed.

Lemma find_app_rows {A} (f : A -> bool) (l l' : list A) :
  List.find f (l ++ l') =
  match List.find f l with
  | Some x => Some x
  | None => List.find f l'
  end.
Proof.
  induction l as [|x l IH]; simpl; [reflexivity|]. now destruct (f x).
Qed.

Section PgVectorStoreProperties.

Variable vector : Type.
Variable numbers : Type.
Variable to_vector : numbers -> vector.
Variable of_vector : vector -> numbers.

Lemma getVector_storeVector_same (i sector : string) (vec : numbers) (dim : nat)
    (user_id : option string) (table : list (vector_row vector)) :
  getVector of_vector i sector (storeVector to_vector i sector vec dim user_id table)
  = Some {| vv_vector := of_vector (to_vector vec); vv_dim := dim |}.
Proof.
  unfold getVector, storeVector.
  destruct (existsb (same_key i sector) table) eqn:E.
  - rewrite find_replaced_same by reflexivity.
    apply find_some_existsb in E as [x ->]. reflexivity.
  - rewrite find_app_rows, (find_none_existsb _ _ E). simpl.
    unfold same_key. simpl. now rewrite !String.eqb_refl.
Qed.

Lemma getVector_storeVector_other (i sector i' sector' : string) (vec : numbers)
    (dim : nat) (user_id : option string) (table : list (vector_row vector)) :
  (i', sector') <> (i, sector) ->
  getVector of_vector i' sector' (storeVector to_vector i sector vec dim user_id table)
  = getVector of_vector i' sector' table.
Proof.
  intros Hne. unfold getVector, storeVector.
  destruct (existsb (same_key i sector) table) eqn:E.
  - now rewrite find_replaced_other.
  - rewrite find_app_rows. destruct (List.find (same_key i' sector') table); [reflexivity|].
    simpl. rewrite (same_key_other i sector i' sector'); [reflexivity|assumption|].
    unfold same_key. simpl. now rewrite !String.eqb_refl.
Qed.

End PgVectorStoreProperties.

(** X18: after [storeVector] of a vector under an id and sector, [getVector]
    for that id and sector returns the dim given and the vector as the
    database hands it back (the text of the array read by [::vector], printed
    by [::text] and parsed again), whether or not a row was there before; for
    every other id or sector [getVector] returns what it returned before. *)
Theorem getVector_after_storeVector (vector numbers : Type)
    (to_vector : numbers -> vector) (of_vector : vector -> numbers)
    (i sector : string) (vec : numbers) (dim : nat) (user_id : option string)
    (table : list (vector_row vector)) :
  getVector of_vector i sector (storeVector to_vector i sector vec dim user_id table)
  = Some {| vv_vector := of_vector (to_vector vec); vv_dim := dim |} /\
  forall i' sector',
    (i', sector') <> (i, sector) ->
    getVector of_vector i' sector' (storeVector to_vector i sector vec dim user_id table)
    = getVector of_vector i' sector' table.
Proof.
  split.
  - apply getVector_storeVector_same.
  - intros i' sector' Hne. now apply getVector_storeVector_other.
Qed.

Lemma map_key_replaced {vector} (i sector : string) (excluded : vector_row vector)
    (table : list (vector_row vector)) :
  key_of excluded = (i, sector) ->
  map key_of (map (fun row => if same_key i sector row then excluded else row) table)
  = map key_of table.
Proof.
  intros Hk. rewrite map_map. apply map_ext. intros row.
  destruct (same_key i sector row) eqn:E; [|reflexivity].
  apply same_key_spec in E. congruence.
Qed.

(** X19: [storeVector] keeps one row per id and sector: on a table without
    two rows of the same id and sector it yields such a table again, with the
    same number of rows when a row of that id and sector was there (it is
    overwritten) and with one row more when none was. *)
Theorem storeVector_keeps_keys_unique (vector numbers : Type)
    (to_vector : numbers -> vector)
    (i sector : string) (vec : numbers) (dim : nat) (user_id : option string)
    (table : list (vector_row vector)) :
  NoDup (map key_of table) ->
  NoDup (map key_of (storeVector to_vector i sector vec dim user_id table)) /\
  length (storeVector to_vector i sector vec dim user_id table)
  = (if existsb (same_key i sector) table then length table else S (length table)).
Proof.
  intros Hnd. unfold storeVector.
  destruct (existsb (same_key i sector) table) eqn:E.
  - rewrite map_key_replaced by reflexivity. split; [assumption|]. apply length_map.
  - split.
    + rewrite map_app. apply NoDup_app. split; [assumption|]. split.
      * intros k Hk Hk'. apply list_elem_of_In in Hk, Hk'.
        destruct Hk' as [<-|[]].
        assert (Hx : existsb (same_key i sector) table = true)
          by (apply existsb_same_key; exact Hk).
        congruence.
      * apply NoDup_singleton.
    + rewrite List.length_app. simpl. lia.
Qed.

Lemma storeVector_keeps_keys_unique_toy :
  NoDup (map key_of
           (storeVector (fun x : Z => x) "m2" "semantic" 7 1%nat (Some "alice")
              toy_vectors)) /\
  length (storeVector (fun x : Z => x) "m2" "semantic" 7 1%nat (Some "alice") toy_vectors)
  = (if existsb (same_key "m2" "semantic") toy_vectors
     then length toy_vectors else S (length toy_vectors)).
Proof.
  apply (storeVector_keeps_keys_unique Z Z (fun x => x) "m2" "semantic" 7 1%nat
           (Some "alice") toy_vectors).
  repeat (apply NoDup_cons_2; [rewrite list_elem_of_In; simpl; intuition discriminate|]).
  apply NoDup_nil_2.
Defined.

Lemma existsb_replaced {vector} (i sector : string) (excluded : vector_row vector)
    (table : list (vector_row vector)) :
  key_of excluded = (i, sector) ->
  existsb (same_key i sector)
    (map (fun row => if same_key i sector row then excluded else row) table)
  = existsb (same_key i sector) table.
Proof.
  intros Hk. apply same_key_spec in Hk.
  induction table as [|row table IH]; simpl; [reflexivity|].
  destruct (same_key i sector row) eqn:E; [now rewrite Hk | now rewrite E, IH].
Qed.

(** X20: the last write wins: storing under an id and sector and then
    storing again under the same id and sector leaves the table that the
    second [storeVector] alone would have left; in particular storing the same
    vector twice is storing it once. *)
Theorem storeVector_last_write_wins (vector numbers : Type)
    (to_vector : numbers -> vector)
    (i sector : string) (vec1 vec2 : numbers) (dim1 dim2 : nat)
    (user1 user2 : option string) (table : list (vector_row vector)) :
  storeVector to_vector i sector vec2 dim2 user2
    (storeVector to_vector i sector vec1 dim1 user1 table)
  = storeVector to_vector i sector vec2 dim2 user2 table.
Proof.
  unfold storeVector.
  destruct (existsb (same_key i sector) table) eqn:E.
  - rewrite existsb_replaced, E by reflexivity. rewrite map_map.
    apply map_ext. intros row. destruct (same_key i sector row) eqn:Er.
    + unfold same_key. simpl. now rewrite !String.eqb_refl.
    + now rewrite Er.
  - rewrite existsb_app. simpl. unfold same_key at 2. simpl.
    rewrite !String.eqb_refl. simpl. rewrite orb_true_r.
    rewrite map_app. simpl. unfold same_key at 2. simpl. rewrite !String.eqb_refl. simpl.
    f_equal. rewrite <- (map_id table) at 2. apply map_ext_in. intros row Hrow.
    destruct (same_key i sector row) eqn:Er; [|reflexivity].
    exfalso. assert (Hx : existsb (same_key i sector) table = true).
    { apply existsb_exists. now exists row. }
    congruence.
Qed.

(** X21: [deleteVector] removes the row of an id and sector and no other:
    afterwards [getVector] returns null for that id and sector and what it
    returned before for every other id or sector; [deleteVectors] removes the
    rows of an id in all sectors: afterwards [getVectorsById] returns nothing
    for that id and what it returned before for every other id. *)
Theorem delete_removes_only_the_key (vector numbers : Type)
    (of_vector : vector -> numbers) (i sector : string)
    (table : list (vector_row vector)) :
  getVector of_vector i sector (deleteVector i sector table) = None /\
  (forall i' sector',
      (i', sector') <> (i, sector) ->
      getVector of_vector i' sector' (deleteVector i sector table)
      = getVector of_vector i' sector' table) /\
  getVectorsById of_vector i (deleteVectors i table) = [] /\
  (forall s, getVector of_vector i s (deleteVectors i table) = None) /\
  (forall i', i' <> i ->
      getVectorsById of_vector i' (deleteVectors i table)
      = getVectorsById of_vector i' table).
Proof.
  repeat apply conj.
  - unfold getVector, deleteVector.
    induction table as [|row table IH]; simpl; [reflexivity|].
    destruct (same_key i sector row) eqn:E; simpl; [exact IH|]. now rewrite E.
  - intros i' sector' Hne. unfold getVector, deleteVector.
    induction table as [|row table IH]; simpl; [reflexivity|].
    destruct (same_key i sector row) eqn:E; simpl.
    + now rewrite (same_key_other i sector i' sector' row Hne E).
    + destruct (same_key i' sector' row); [reflexivity | exact IH].
  - unfold getVectorsById, deleteVectors.
    induction table as [|row table IH]; simpl; [reflexivity|].
    destruct (String.eqb (v_id row) i) eqn:E; simpl; [exact IH|]. now rewrite E.
  - intros s. unfold getVector, deleteVectors.
    induction table as [|row table IH]; simpl; [reflexivity|].
    destruct (String.eqb (v_id row) i) eqn:E; simpl; [exact IH|].
    unfold same_key at 1. now rewrite E.
  - intros i' Hne. unfold getVectorsById, deleteVectors. f_equal.
    induction table as [|row table IH]; simpl; [reflexivity|].
    destruct (String.eqb (v_id row) i) eqn:E; simpl.
    + apply String.eqb_eq in E. rewrite E.
      apply not_eq_sym in Hne. apply String.eqb_neq in Hne. now rewrite Hne.
    + destruct (String.eqb (v_id row) i'); [now f_equal | exact IH].
Qed.

Lemma searchSimilar_hit_row (vector : Type) (cosine_distance : vector -> vector -> Q)
    (index_scan : vector -> list (vector_row vector) -> list (vector_row vector))
    (sector : string) (queryVec : vector) (topK : nat) (user_id : option string)
    (table : list (vector_row vector)) (h : hit) :
  (forall q t row, In row (index_scan q t) -> In row t) ->
  In h (searchSimilar cosine_distance index_scan sector queryVec topK user_id table) ->
  exists row, In row table /\ hit_id h = v_id row /\ v_sector row = sector /\
              forall u, provided user_id = Some u -> v_user_id row = u.
Proof.
  intros Hscan Hh. unfold searchSimilar, run_search in Hh.
  apply in_map_iff in Hh as (row & <- & Hrow).
  apply In_firstn, filter_In in Hrow as [Hrow Hw].
  exists row. split; [now apply (Hscan queryVec)|]. split; [reflexivity|].
  unfold search_where, search_statement_of in Hw.
  destruct (provided user_id) as [u|]; simpl in Hw;
    apply andb_true_iff in Hw as [Hs Hu]; apply String.eqb_eq in Hs;
    (split; [assumption|]).
  - intros u' [= <-]. now apply String.eqb_eq in Hu.
  - discriminate.
Qed.

Lemma In_storeVector (vector numbers : Type) (to_vector : numbers -> vector)
    (i sector : string) (vec : numbers) (dim : nat) (user_id : option string)
    (table : list (vector_row vector)) (row : vector_row vector) :
  In row (storeVector to_vector i sector vec dim user_id table) ->
  key_of row = (i, sector) -> v_user_id row = owner_of user_id.
Proof.
  unfold storeVector, owner_of. intros Hrow Hk.
  destruct (existsb (same_key i sector) table) eqn:Ex.
  - apply in_map_iff in Hrow as (old & Hold & _).
    destruct (same_key i sector old) eqn:E.
    + now subst row.
    + subst row. apply same_key_spec in Hk. congruence.
  - apply in_app_iff in Hrow as [Hrow|[<-|[]]]; [|reflexivity].
    exfalso. apply same_key_spec in Hk.
    assert (Hx : existsb (same_key i sector) table = true).
    { apply existsb_exists. now exists row. }
    congruence.
Qed.

(** X22: a vector stored for one user is not returned to another: after
    [storeVector] under an id and sector for a user (for "anonymous" when no
    user id or an empty one is given), [searchSimilar] in that sector with a
    different, non-empty user id never returns that id, whatever rows the
    index scan reaches. *)
Theorem stored_vector_hidden_from_others (vector numbers : Type)
    (to_vector : numbers -> vector) (cosine_distance : vector -> vector -> Q)
    (index_scan : vector -> list (vector_row vector) -> list (vector_row vector))
    (i sector : string) (vec : numbers) (dim : nat) (user_id : option string)
    (table : list (vector_row vector))
    (queryVec : vector) (topK : nat) (u : string) (h : hit) :
  (forall q t row, In row (index_scan q t) -> In row t) ->
  u <> "" -> u <> owner_of user_id ->
  In h (searchSimilar cosine_distance index_scan sector queryVec topK (Some u)
          (storeVector to_vector i sector vec dim user_id table)) ->
  hit_id h <> i.
Proof.
  intros Hscan Hu Hother Hh Hid.
  apply searchSimilar_hit_row in Hh as (row & Hrow & Hhit & Hsec & Huser); [|assumption].
  assert (Hp : provided (Some u) = Some u) by (apply provided_Some; auto).
  specialize (Huser u Hp).
  apply In_storeVector in Hrow.
  - congruence.
  - unfold key_of. congruence.
Qed.

Lemma stored_vector_hidden_from_others_toy :
  forallb (fun h => negb (String.eqb (hit_id h) "m9"))
    (searchSimilar cosine_distance_1d (fun _ t => t) "semantic" 4%Z 10%nat (Some "alice")
       (storeVector (fun x : Z => x) "m9" "semantic" 6 1%nat None toy_vectors)) = true.
Proof.
  apply forallb_forall. intros h Hh. apply negb_true_iff, String.eqb_neq.
  apply (stored_vector_hidden_from_others Z Z (fun x => x) cosine_distance_1d
           (fun _ t => t) "m9" "semantic" 6 1%nat None toy_vectors 4 10%nat "alice" h);
    try discriminate; [intros q t row H; exact H | exact Hh].
Defined.

(** X23: a deleted memory is not found again: after [deleteVectors] of an
    id, [searchSimilar] returns that id in no sector and for no user, and
    after [deleteVector] of an id and sector it does not return the id in that
    sector, whatever rows of the table the index scan reaches. *)
Theorem deleted_vector_not_found (vector : Type)
    (cosine_distance : vector -> vector -> Q)
    (index_scan : vector -> list (vector_row vector) -> list (vector_row vector))
    (i sector : string) (table : list (vector_row vector))
    (queryVec : vector) (topK : nat) (user_id : option string) :
  (forall q t row, In row (index_scan q t) -> In row t) ->
  (forall s h,
      In h (searchSimilar cosine_distance index_scan s queryVec topK user_id
              (deleteVectors i table)) -> hit_id h <> i) /\
  (forall h,
      In h (searchSimilar cosine_distance index_scan sector queryVec topK user_id
              (deleteVector i sector table)) -> hit_id h <> i).
Proof.
  intros Hscan. split.
  - intros s h Hh Hid.
    apply searchSimilar_hit_row in Hh as (row & Hrow & Hhit & _); [|assumption].
    unfold deleteVectors in Hrow. apply filter_In in Hrow as [_ Hne].
    apply negb_true_iff, String.eqb_neq in Hne. congruence.
  - intros h Hh Hid.
    apply searchSimilar_hit_row in Hh as (row & Hrow & Hhit & Hsec & _); [|assumption].
    unfold deleteVector in Hrow. apply filter_In in Hrow as [_ Hne].
    apply negb_true_iff in Hne. unfold same_key in Hne.
    rewrite <- Hhit, Hid, Hsec, !String.eqb_refl in Hne. discriminate.
Qed.

Lemma deleted_vector_not_found_toy :
  forallb (fun h => negb (String.eqb (hit_id h) "m2"))
    (searchSimilar cosine_distance_1d (fun _ t => t) "semantic" 4%Z 10%nat (Some "alice")
       (deleteVectors "m2" toy_vectors)) = true.
Proof.
  apply forallb_forall. intros h Hh. apply negb_true_iff, String.eqb_neq.
  destruct (deleted_vector_not_found Z cosine_distance_1d (fun _ t => t) "m2" "semantic"
              toy_vectors 4 10%nat (Some "alice")) as [H _].
  - intros q t row Hr. exact Hr.
  - exact (H "semantic" h Hh).
Defined.

(** * Further properties of the fact mutations and the as-of filters *)

Lemma validate_ownership_unscoped (uid : option string) (i : string)
    (db : list fact_row) :
  provided uid = None -> validate_ownership uid i db = (inr tt, db).
Proof. intros Hu. unfold validate_ownership. now rewrite Hu. Qed.

Lemma validate_ownership_owner (uid : option string) (u i : string)
    (db : list fact_row) :
  provided uid = Some u ->
  (exists r, In r db /\ row_id r = i) ->
  (forall r, In r db -> row_id r = i -> row_user_id r = Some u) ->
  validate_ownership uid i db = (inr tt, db).
Proof.
  intros Hu (r & Hr & Hi) Hown. unfold validate_ownership. rewrite Hu.
  unfold bind, select_owner. pose proof (select_owner_first i db) as Hsel.
  destruct (get_async [id_eq i] None None db) as [f|].
  - destruct Hsel as [Hf Hfi]. unfold owner_differs.
    rewrite (Hown f Hf Hfi), String.eqb_refl. reflexivity.
  - exfalso. exact (Hsel r Hr Hi).
Qed.

(** X24: [updateFact], [invalidateFact] and [deleteFact] hand the call on to
    the store, without an error of their own, in two cases: when the fact
    exists and belongs to the non-empty user the call is made for, and when no
    user is given and the instance has no default user; in the latter case
    the owner of the fact is not looked at, nor whether the fact exists. *)
Theorem fact_mutations_pass (update_fact : string -> option Q -> option metadata_map ->
                                           list fact_row -> list fact_row)
    (invalidate_fact : string -> option Z -> list fact_row -> list fact_row)
    (delete_fact : string -> list fact_row -> list fact_row)
    (this : Memory) (user_id : option string) (i : string)
    (new_confidence : option Q) (new_metadata : option metadata_map)
    (new_valid_to : option Z) (db : list fact_row) :
  let opts := {| uo_confidence := new_confidence; uo_metadata := new_metadata;
                 uo_user_id := user_id |} in
  let uid := or_else user_id (default_user this) in
  provided uid = None \/
  (exists u, provided uid = Some u /\
             (exists r, In r db /\ row_id r = i) /\
             (forall r, In r db -> row_id r = i -> row_user_id r = Some u)) ->
  updateFact update_fact this i opts db
  = (inr tt, update_fact i new_confidence new_metadata db) /\
  invalidateFact invalidate_fact this i new_valid_to user_id db
  = (inr tt, invalidate_fact i new_valid_to db) /\
  deleteFact delete_fact this i user_id db = (inr tt, delete_fact i db).
Proof.
  intros opts uid H.
  assert (Hv : validate_ownership uid i db = (inr tt, db)).
  { destruct H as [H | (u & Hu & Hex & Hown)].
    - now apply validate_ownership_unscoped.
    - now apply (validate_ownership_owner uid u). }
  unfold updateFact, invalidateFact, deleteFact, bind, run. simpl.
  fold uid. now rewrite Hv.
Qed.

Lemma fact_mutations_pass_unscoped :
  deleteFact spec_delete_fact (new_Memory None) "f3" None [bob_acme; open_since_50]
  = (inr tt, [open_since_50]).
Proof.
  destruct (fact_mutations_pass (spec_update_fact (fun _ => "{}"))
              (spec_invalidate_fact 100) spec_delete_fact (new_Memory None) None
              "f3" None None None [bob_acme; open_since_50]) as (_ & _ & H).
  - left. reflexivity.
  - rewrite H. reflexivity.
Defined.

Lemma pattern_matches_omitted (x : string) : pattern_matches None x.
Proof. exact I. Qed.

(** X25: the filters of the as-of query only narrow its result: a fact
    returned under a subject, predicate or object pattern, a user id or a
    confidence threshold is also returned when that pattern or user id is
    omitted, or the threshold is lowered, the rest of the query being the
    same. *)
Theorem as_of_filters_narrow (now : Z) (s p o : option string) (at_ : option Z)
    (mc mc' : Q) (u : option string) (db : list fact_row) (g : TemporalFact) :
  (mc' <= mc)%Q ->
  In g (query_facts_at_time now s p o at_ (Some mc) u db) ->
  In g (query_facts_at_time now None p o at_ (Some mc) u db) /\
  In g (query_facts_at_time now s None o at_ (Some mc) u db) /\
  In g (query_facts_at_time now s p None at_ (Some mc) u db) /\
  In g (query_facts_at_time now s p o at_ (Some mc) None db) /\
  In g (query_facts_at_time now s p o at_ (Some mc') u db).
Proof.
  intros Hmc. unfold query_facts_at_time. rewrite !in_map_iff.
  intros (r & <- & Hr). rewrite In_all_async in Hr. destruct Hr as [Hdb Hr].
  apply at_time_where in Hr as (H1 & H2 & H3 & H4 & H5 & H6).
  repeat apply conj; exists r; (split; [reflexivity|]); apply In_all_async;
    (split; [assumption|]); apply at_time_where;
    (split; [exact H1|]); (split; [first [exact H2 | exact I]|]);
    (split; [first [exact H3 | exact I]|]); (split; [first [exact H4 | exact I]|]);
    (split; [first [exact H5 | exact I]|]); try exact H6.
  unfold confident, min_confidence_of in *. intros Hpos.
  eapply Qle_trans; [exact Hmc|]. apply H6. eapply Qlt_le_trans; eassumption.
Qed.

Lemma as_of_filters_narrow_s2 :
  In (row_to_fact globex)
    (query_facts_at_time 0 None (Some "works_at") None (Some 1717200000000)
       (Some (1 # 2)%Q) (Some "alice") s2_table).
Proof.
  destruct (as_of_filters_narrow 0 (Some "alice") (Some "works_at") None
              (Some 1717200000000) (1 # 2)%Q 0%Q (Some "alice") s2_table
              (row_to_fact globex)) as [H _].
  - vm_compute. discriminate.
  - vm_compute. left. reflexivity.
  - exact H.
Defined.
